(** * ATMega328PAnalogReader: a shallow embedding and its properties

    The class of [src/ATMega328PAnalogReader.h] saves the ADC control
    register [ADCSRA], replaces its three prescaler bits, and offers reads
    that sum repeated [analogRead] calls and shift the sum.

    The embedding follows the C++ of the header as avr-gcc compiles it for
    the ATmega328P: [int] is 16 bits wide, [uint16_t] is [unsigned int],
    [uint32_t] is [unsigned long].  Integers are [Z] with the wrap-around
    of each conversion written out.  Methods are computations in a small
    state-and-error monad over the machine (the register, the number of
    conversions done so far, and the object's three fields); [None] stands
    for an expression the language leaves without a value (a shift by at
    least the width of its left operand, a failed [static_assert]). *)

From Stdlib Require Import ZArith Lia List Bool.
Import ListNotations.
Local Open Scope Z_scope.

(** ** Machine integers *)

Module AVR.

(** Conversion to [uint8_t], [uint16_t] and [uint32_t]. *)
Definition u8 (z : Z) : Z := z mod 2 ^ 8.
Definition u16 (z : Z) : Z := z mod 2 ^ 16.
Definition u32 (z : Z) : Z := z mod 2 ^ 32.

(** Conversion to the 16-bit [int]. *)
Definition s16 (z : Z) : Z := (z + 2 ^ 15) mod 2 ^ 16 - 2 ^ 15.

(** [a << n] on [int]: defined for a non-negative [a] and a count below
    the width when [a * 2^n] fits the corresponding unsigned type; the
    value is then converted to [int]. *)
Definition int_shl (a n : Z) : option Z :=
  if (0 <=? a) && (0 <=? n) && (n <? 16) && (a * 2 ^ n <? 2 ^ 16)
  then Some (s16 (a * 2 ^ n))
  else None.

(** [a << n] on [unsigned int] (the type of a [uint16_t] operand, which
    is not promoted): modulo [2^16], for a count below the width. *)
Definition uint_shl (a n : Z) : option Z :=
  if (0 <=? n) && (n <? 16) then Some (u16 (Z.shiftl a n)) else None.

(** [a >> n] on [unsigned long] (the type of a [uint32_t] operand). *)
Definition ulong_shr (a n : Z) : option Z :=
  if (0 <=? n) && (n <? 32) then Some (Z.shiftr a n) else None.

End AVR.
Import AVR.

(** ** The machine *)

(** The private fields of the class. *)
Record ATMega328PAnalogReader : Type := mkReader {
  _prescalerBits : Z;      (* uint8_t, active prescaler *)
  _backupADCSRA : Z;       (* uint8_t, backup of the ADC control register *)
  _initialized : bool      (* whether begin() has been called *)
}.

(** The default-constructed object. *)
Definition default_reader : ATMega328PAnalogReader := mkReader 0 0 false.

(** What the methods act on: the memory-mapped register, the count of
    conversions [analogRead] has completed, and the object itself. *)
Record Machine : Type := mkMachine {
  ADCSRA : Z;
  conversions : nat;
  self : ATMega328PAnalogReader
}.

Definition M (A : Type) : Type := Machine -> option (A * Machine).

Definition ret {A} (a : A) : M A := fun m => Some (a, m).

Definition bind {A B} (c : M A) (k : A -> M B) : M B :=
  fun m => match c m with
           | Some (a, m') => k a m'
           | None => None
           end.

Definition undefined {A} : M A := fun _ => None.

Definition lift {A} (o : option A) : M A :=
  fun m => match o with Some a => Some (a, m) | None => None end.

Declare Scope adc_scope.
Delimit Scope adc_scope with adc.
Notation "x <- c ;; k" := (bind c (fun x => k))
  (at level 61, c at next level, right associativity) : adc_scope.
Notation "c ;; k" := (bind c (fun _ => k))
  (at level 61, right associativity) : adc_scope.
Local Open Scope adc_scope.

Definition read_ADCSRA : M Z := fun m => Some (ADCSRA m, m).

Definition write_ADCSRA (v : Z) : M unit :=
  fun m => Some (tt, mkMachine v (conversions m) (self m)).

Definition get_self : M ATMega328PAnalogReader := fun m => Some (self m, m).

Definition set_self (r : ATMega328PAnalogReader) : M unit :=
  fun m => Some (tt, mkMachine (ADCSRA m) (conversions m) r).

Definition set_prescalerBits (v : Z) : M unit :=
  r <- get_self ;; set_self (mkReader v (_backupADCSRA r) (_initialized r)).

Definition set_backupADCSRA (v : Z) : M unit :=
  r <- get_self ;; set_self (mkReader (_prescalerBits r) v (_initialized r)).

Definition set_initialized (b : bool) : M unit :=
  r <- get_self ;; set_self (mkReader (_prescalerBits r) (_backupADCSRA r) b).

(** ** Activation and deactivation *)

(** [bool initialized() const] *)
Definition initialized : M bool :=
  r <- get_self ;; ret (_initialized r).

(** [bool begin(uint8_t prescalerBits = 7)] *)
Definition begin (prescalerBits : Z) : M bool :=
  set_prescalerBits (u8 (Z.land prescalerBits 7)) ;;
  v <- read_ADCSRA ;;
  set_backupADCSRA v ;;
  v <- read_ADCSRA ;;
  r <- get_self ;;
  write_ADCSRA (u8 (Z.lor (Z.land v 248) (_prescalerBits r))) ;;
  set_initialized true ;;
  initialized.

(** [void end()] ([end] is a keyword here, hence the underscore). *)
Definition end_ : M unit :=
  b <- initialized ;;
  (if b then r <- get_self ;; write_ADCSRA (_backupADCSRA r) else ret tt) ;;
  set_initialized false.

(** The destructor calls [end()]. *)
Definition destroy : M unit := end_.

(** ** Reads *)

Section Reads.

(** The platform's [int analogRead(uint8_t pin)] is not part of the
    class: [adc pin k] is the value the [k]-th conversion returns when it
    is made on [pin].  A call blocks until its conversion is done and
    leaves [ADCSRA] and the object as they were. *)
Variable adc : Z -> nat -> Z.

Definition analogRead (pin : Z) : M Z :=
  fun m => Some (adc pin (conversions m),
                 mkMachine (ADCSRA m) (S (conversions m)) (self m)).

(** [inline uint16_t read(uint8_t pin) const] *)
Definition read (pin : Z) : M Z :=
  x <- analogRead pin ;; ret (u16 x).

(** The loop the three averaging reads share,
    [for (uint16_t i = 0; i < samples; ++i) { sum += analogRead(pin); }],
    from a given [i] and [sum].  The counter is a [uint16_t] and the
    accumulator a [uint32_t]; [fuel] bounds the number of tests of the
    loop condition. *)
Fixpoint for_sum (fuel : nat) (samples pin i sum : Z) : M Z :=
  match fuel with
  | O => undefined
  | S fuel' =>
      if i <? samples
      then x <- analogRead pin ;;
           for_sum fuel' samples pin (u16 (i + 1)) (u32 (sum + x))
      else ret sum
  end.

(** A [uint16_t] counter takes [2^16] values, so no more tests than that
    are made before [i < samples] fails. *)
Definition loop_fuel : nat := Z.to_nat (2 ^ 16).

Definition accumulate (samples pin : Z) : M Z :=
  for_sum loop_fuel samples pin 0 0.

(** [template<uint8_t AVG_POW2 = 0> uint16_t readAveraged(uint8_t pin) const] *)
Definition readAveraged (AVG_POW2 pin : Z) : M Z :=
  one <- lift (int_shl 1 AVG_POW2) ;;
  let samples := u16 one in
  sum <- accumulate samples pin ;;
  q <- lift (ulong_shr sum AVG_POW2) ;;
  ret (u16 q).

(** [static_assert(OUTPUT_BITS >= 10 && OUTPUT_BITS <= 16, ...)] *)
Definition static_assert_bits (OUTPUT_BITS : Z) : M unit :=
  if (10 <=? OUTPUT_BITS) && (OUTPUT_BITS <=? 16) then ret tt else undefined.

(** [template<uint8_t OUTPUT_BITS = 10> uint16_t readHighRes(uint8_t pin) const] *)
Definition readHighRes (OUTPUT_BITS pin : Z) : M Z :=
  static_assert_bits OUTPUT_BITS ;;
  let extraBits := u8 (OUTPUT_BITS - 10) in
  one <- lift (int_shl 1 (2 * extraBits)) ;;
  let samples := u16 one in
  sum <- accumulate samples pin ;;
  q <- lift (ulong_shr sum (2 * extraBits)) ;;
  let avg := u16 q in
  r <- lift (uint_shl avg extraBits) ;;
  ret (u16 r).

(** [template<uint8_t OUTPUT_BITS = 10, uint8_t AVG_POW2 = 0>
    uint16_t readHighResAveraged(uint8_t pin) const] *)
Definition readHighResAveraged (OUTPUT_BITS AVG_POW2 pin : Z) : M Z :=
  static_assert_bits OUTPUT_BITS ;;
  let extraBits := u8 (OUTPUT_BITS - 10) in
  let totalPow2 := u8 (2 * extraBits + AVG_POW2) in
  one <- lift (int_shl 1 totalPow2) ;;
  let samples := u16 one in
  sum <- accumulate samples pin ;;
  q <- lift (ulong_shr sum totalPow2) ;;
  let avg := u16 q in
  r <- lift (uint_shl avg extraBits) ;;
  ret (u16 r).

(** *** The two-step reading of the combined read

    Written from the words of the specification, to be compared with
    [readHighResAveraged]: the oversample-and-decimate step is done
    [2^AVG_POW2] times, each over its own group of [2^(2*extraBits)]
    conversions, and the decimated values are then averaged by a right
    shift of their sum. *)
Fixpoint spec_sum_decimated (n : nat) (OUTPUT_BITS pin acc : Z) : M Z :=
  match n with
  | O => ret acc
  | S n' => d <- readHighRes OUTPUT_BITS pin ;;
            spec_sum_decimated n' OUTPUT_BITS pin (acc + d)
  end.

Definition spec_decimate_then_average (OUTPUT_BITS AVG_POW2 pin : Z) : M Z :=
  s <- spec_sum_decimated (Z.to_nat (2 ^ AVG_POW2)) OUTPUT_BITS pin 0 ;;
  ret (Z.shiftr s AVG_POW2).

(** A second two-step reading, also from the words of the specification:
    the groups are averaged at the native resolution, the group averages
    are averaged, and only the result is widened. *)
Fixpoint spec_sum_group_averages (n : nat) (extraBits pin acc : Z) : M Z :=
  match n with
  | O => ret acc
  | S n' => g <- accumulate (2 ^ (2 * extraBits)) pin ;;
            spec_sum_group_averages n' extraBits pin
              (acc + Z.shiftr g (2 * extraBits))
  end.

Definition spec_average_then_widen (OUTPUT_BITS AVG_POW2 pin : Z) : M Z :=
  let extraBits := OUTPUT_BITS - 10 in
  s <- spec_sum_group_averages (Z.to_nat (2 ^ AVG_POW2)) extraBits pin 0 ;;
  ret (Z.shiftl (Z.shiftr s AVG_POW2) extraBits).

(** The exact sum of [n] conversions on [pin] from the [c]-th on. *)
Fixpoint sum_samples (pin : Z) (c n : nat) : Z :=
  match n with
  | O => 0
  | S n' => adc pin c + sum_samples pin (S c) n'
  end.

End Reads.

(** A test double: the conversions return the values of a list in order,
    and 0 once the list is used up. *)
Definition feed (xs : list Z) : Z -> nat -> Z := fun _ k => nth k xs 0.

Definition boot (v : Z) : Machine := mkMachine v 0 default_reader.

(** [bump k m]: the machine after [k] more conversions, all else equal. *)
Definition bump (k : nat) (m : Machine) : Machine :=
  mkMachine (ADCSRA m) (conversions m + k) (self m).

(** Every conversion on [pin] returns a value of the native 10 bits. *)
Definition ten_bit (adc : Z -> nat -> Z) (pin : Z) : Prop :=
  forall k, 0 <= adc pin k <= 1023.

(** [m'] differs from [m] by some number of conversions only: the register
    and the object's fields are those of [m]. *)
Definition only_converts (m m' : Machine) : Prop :=
  exists k, m' = bump k m.

(** A computation that, whenever it returns, has changed nothing but the
    count of conversions. *)
Definition frames {A} (c : M A) : Prop :=
  forall m v m', c m = Some (v, m') -> only_converts m m'.

(** A second test double: every conversion returns [s]. *)
Definition steady (s : Z) : Z -> nat -> Z := fun _ _ => s.

(** ** Callers

    A caller makes calls on one object, one after the other, as the usage
    example in the header does; the values the reads return are dropped
    here, the machine is what is followed. *)
Inductive call : Type :=
| CBegin (prescalerBits : Z)
| CEnd
| CRead (pin : Z)
| CReadAveraged (AVG_POW2 pin : Z)
| CReadHighRes (OUTPUT_BITS pin : Z)
| CReadHighResAveraged (OUTPUT_BITS AVG_POW2 pin : Z).

Definition do_call (adc : Z -> nat -> Z) (c : call) : M unit :=
  match c with
  | CBegin p => begin p ;; ret tt
  | CEnd => end_
  | CRead pin => read adc pin ;; ret tt
  | CReadAveraged a pin => readAveraged adc a pin ;; ret tt
  | CReadHighRes b pin => readHighRes adc b pin ;; ret tt
  | CReadHighResAveraged b a pin => readHighResAveraged adc b a pin ;; ret tt
  end.

Fixpoint do_calls (adc : Z -> nat -> Z) (cs : list call) : M unit :=
  match cs with
  | [] => ret tt
  | c :: cs' => do_call adc c ;; do_calls adc cs'
  end.

(** [begin] is called only on an object that is not initialized;
    [active] tells whether the object is initialized at the start. *)
Fixpoint disciplined (active : bool) (cs : list call) : bool :=
  match cs with
  | [] => true
  | CBegin _ :: cs' => negb active && disciplined true cs'
  | CEnd :: cs' => disciplined false cs'
  | _ :: cs' => disciplined active cs'
  end.

(** Whether the last of the [begin] and [end] calls of [cs] is a [begin];
    [active] when there is none. *)
Fixpoint last_active (active : bool) (cs : list call) : bool :=
  match cs with
  | [] => active
  | CBegin _ :: cs' => last_active true cs'
  | CEnd :: cs' => last_active false cs'
  | _ :: cs' => last_active active cs'
  end.

(** Bits 3 to 7 of the register are those of [V], and so are those of the
    backup while the object is initialized. *)
Definition keeps_high_bits (V : Z) (m : Machine) : Prop :=
  Z.land (ADCSRA m) 248 = Z.land V 248 /\
  (_initialized (self m) = true -> Z.land (_backupADCSRA (self m)) 248 = Z.land V 248).

(** [V] is in the register while the object is not initialized, and in
    the backup while it is. *)
Definition holds_original (V : Z) (m : Machine) : Prop :=
  if _initialized (self m) then _backupADCSRA (self m) = V else ADCSRA m = V.

(** Every conversion on [pin] returns a value from [lo] to [hi]. *)
Definition within (adc : Z -> nat -> Z) (pin lo hi : Z) : Prop :=
  forall k, lo <= adc pin k <= hi.

(** * Properties *)

(** ** The prescaler field *)

Section PrescalerBits.

Lemma testbit_const_high (c i : Z) :
  0 <= c -> Z.log2 c < i -> Z.testbit c i = false.
Proof. intros Hc Hi. now apply Z.bits_above_log2. Qed.

Ltac small_bit i :=
  let H := fresh in
  assert (H : i = 0 \/ i = 1 \/ i = 2 \/ i = 3 \/ i = 4 \/ i = 5 \/ i = 6 \/ i = 7)
    by lia;
  repeat (destruct H as [H | H]); subst i; cbn;
  rewrite ?andb_true_r, ?andb_false_r, ?orb_false_r, ?orb_true_r; reflexivity.

(** The byte written by [begin] has the bits of [p] below bit 3 and the
    bits of [v] from bit 3 to bit 7. *)
Lemma merged_bits (v p i : Z) :
  0 <= i ->
  Z.testbit (Z.lor (Z.land v 248) (Z.land p 7)) i =
  if i <? 3 then Z.testbit p i
  else if i <? 8 then Z.testbit v i else false.
Proof.
  intros Hi. rewrite Z.lor_spec, !Z.land_spec.
  destruct (Z.ltb_spec i 8) as [H8 | H8].
  - small_bit i.
  - rewrite (testbit_const_high 248 i), (testbit_const_high 7 i) by (cbn; lia).
    destruct (Z.ltb_spec i 3); [lia |].
    now rewrite !andb_false_r.
Qed.

Lemma merged_range (v p : Z) :
  0 <= Z.lor (Z.land v 248) (Z.land p 7) < 2 ^ 8.
Proof.
  assert (Hnn : 0 <= Z.lor (Z.land v 248) (Z.land p 7)).
  { apply Z.lor_nonneg; split; apply Z.land_nonneg; right; lia. }
  split; [exact Hnn |].
  destruct (Z.eq_dec (Z.lor (Z.land v 248) (Z.land p 7)) 0) as [E | E];
    [rewrite E; reflexivity |].
  apply Z.log2_lt_pow2; [lia |].
  destruct (Z.lt_ge_cases (Z.log2 (Z.lor (Z.land v 248) (Z.land p 7))) 8)
    as [Hlt | Hge]; [exact Hlt | exfalso].
  pose proof (Z.bit_log2 (Z.lor (Z.land v 248) (Z.land p 7)) ltac:(lia)) as Hb.
  rewrite merged_bits in Hb by lia.
  destruct (Z.ltb_spec (Z.log2 (Z.lor (Z.land v 248) (Z.land p 7))) 3); [lia |].
  destruct (Z.ltb_spec (Z.log2 (Z.lor (Z.land v 248) (Z.land p 7))) 8); [lia |].
  discriminate.
Qed.

Lemma u8_merged (v p : Z) :
  u8 (Z.lor (Z.land v 248) (Z.land p 7)) = Z.lor (Z.land v 248) (Z.land p 7).
Proof. unfold u8. apply Z.mod_small, merged_range. Qed.

Lemma u8_low3 (p : Z) : u8 (Z.land p 7) = Z.land p 7.
Proof.
  rewrite <- (Z.lor_0_l (Z.land p 7)) at 2.
  rewrite <- (Z.lor_0_l (Z.land p 7)) at 1.
  change 0 with (Z.land 0 248). apply u8_merged.
Qed.

(** The low three bits of the merged byte are those of [p]. *)
Lemma merged_low3 (v p : Z) :
  Z.land (Z.lor (Z.land v 248) (Z.land p 7)) 7 = Z.land p 7.
Proof.
  apply Z.bits_inj'. intros i Hi.
  rewrite Z.land_spec, merged_bits by exact Hi.
  rewrite Z.land_spec.
  destruct (Z.ltb_spec i 3) as [H3 | H3]; [reflexivity |].
  rewrite (testbit_const_high 7 i) by (cbn; lia).
  now rewrite !andb_false_r.
Qed.

End PrescalerBits.

(** What [begin] does, in one equation. *)
Lemma begin_run (p : Z) (m : Machine) :
  begin p m =
  Some (true,
        mkMachine (Z.lor (Z.land (ADCSRA m) 248) (Z.land p 7))
                  (conversions m)
                  (mkReader (Z.land p 7) (ADCSRA m) true)).
Proof.
  unfold begin, bind, set_prescalerBits, set_backupADCSRA, set_initialized,
    initialized, bind, get_self, set_self, read_ADCSRA, write_ADCSRA, ret.
  cbn [ADCSRA conversions self _prescalerBits _backupADCSRA _initialized].
  now rewrite u8_low3, u8_merged.
Qed.

(** What [end] does, in one equation. *)
Lemma end_run (m : Machine) :
  end_ m =
  Some (tt,
        mkMachine (if _initialized (self m) then _backupADCSRA (self m) else ADCSRA m)
                  (conversions m)
                  (mkReader (_prescalerBits (self m)) (_backupADCSRA (self m)) false)).
Proof.
  unfold end_, bind, set_initialized, initialized, bind, get_self, set_self,
    write_ADCSRA, ret.
  cbn [ADCSRA conversions self _prescalerBits _backupADCSRA _initialized].
  destruct (_initialized (self m)); reflexivity.
Qed.

(** ** Activation, deactivation, and their round trip *)

(** C1. Round-trip restoration: whatever the register holds and whatever
    prescaler is asked for, [begin] succeeds, and an [end] made later on
    the same object, its fields untouched in between (no nested [begin]),
    writes the saved value back, so the register holds again exactly the
    value it had before [begin]. *)
Theorem begin_end_roundtrip (p : Z) (m : Machine) :
  exists m1,
    begin p m = Some (true, m1) /\
    forall m1', self m1' = self m1 ->
      exists m2,
        end_ m1' = Some (tt, m2) /\
        ADCSRA m2 = ADCSRA m /\
        ADCSRA m2 = _backupADCSRA (self m1) /\
        _initialized (self m2) = false.
Proof.
  eexists. split; [apply begin_run |].
  intros m1' Hself. eexists. split; [apply end_run |].
  rewrite Hself. cbn. auto.
Qed.

Lemma begin_end_roundtrip_witness :
  exists m2,
    (begin 4 ;; end_) (boot 167) = Some (tt, m2) /\ ADCSRA m2 = 167.
Proof.
  destruct (begin_end_roundtrip 4 (boot 167)) as (m1 & Hb & He).
  destruct (He m1 eq_refl) as (m2 & He2 & Hv & _).
  exists m2. split; [| exact Hv].
  unfold bind. rewrite Hb. exact He2.
Defined.

(** C2. [begin p] on a register holding the byte [V]: the backup is [V]
    itself, the value read before the register is written; the register
    becomes [V] with its low three bits replaced by those of [p] and its
    other bits kept; the object is marked initialized; the call returns
    [true]. *)
Theorem begin_effect (p : Z) (m : Machine) :
  0 <= ADCSRA m < 2 ^ 8 ->
  exists m',
    begin p m = Some (true, m') /\
    _backupADCSRA (self m') = ADCSRA m /\
    ADCSRA m' = Z.lor (Z.land (ADCSRA m) 248) (Z.land p 7) /\
    Z.land (ADCSRA m') 7 = Z.land p 7 /\
    (forall i, 0 <= i ->
       Z.testbit (ADCSRA m') i =
       if i <? 3 then Z.testbit p i else Z.testbit (ADCSRA m) i) /\
    _prescalerBits (self m') = Z.land p 7 /\
    _initialized (self m') = true /\
    conversions m' = conversions m.
Proof.
  intros HV. eexists. split; [apply begin_run |]. cbn.
  repeat split; try apply merged_low3.
  intros i Hi. rewrite merged_bits by exact Hi.
  destruct (Z.ltb_spec i 3); [reflexivity |].
  destruct (Z.ltb_spec i 8); [reflexivity |].
  symmetry. destruct (Z.eq_dec (ADCSRA m) 0) as [E | E].
  - rewrite E. apply Z.bits_0.
  - apply Z.bits_above_log2; [lia |].
    assert (Z.log2 (ADCSRA m) < 8) by (apply Z.log2_lt_pow2; lia). lia.
Qed.

Lemma begin_effect_witness :
  exists m',
    begin 4 (boot 167) = Some (true, m') /\
    _backupADCSRA (self m') = 167 /\ ADCSRA m' = 164.
Proof.
  destruct (begin_effect 4 (boot 167)) as (m' & Hb & Hs & Hr & _).
  - cbn. lia.
  - exists m'. repeat split; [exact Hb | exact Hs | exact Hr].
Defined.

(** C7. [end] on an object that is not initialized leaves the register as
    it is and the object not initialized; every [end] leaves the object
    not initialized; a second [end] changes nothing more. *)
Theorem end_inactive_and_idempotent (m : Machine) :
  (_initialized (self m) = false ->
     exists m', end_ m = Some (tt, m') /\
                ADCSRA m' = ADCSRA m /\ _initialized (self m') = false) /\
  (exists m', end_ m = Some (tt, m') /\ _initialized (self m') = false) /\
  (end_ ;; end_) m = end_ m.
Proof.
  repeat split.
  - intros Hoff. eexists. split; [apply end_run |].
    rewrite Hoff. cbn. auto.
  - eexists. split; [apply end_run |]. reflexivity.
  - unfold bind. rewrite (end_run m), end_run. reflexivity.
Qed.

Lemma end_inactive_and_idempotent_witness :
  exists m', end_ (boot 167) = Some (tt, m') /\
             ADCSRA m' = 167 /\ _initialized (self m') = false.
Proof.
  exact (proj1 (end_inactive_and_idempotent (boot 167)) eq_refl).
Defined.

(** C8. A second [begin] on an initialized object takes its backup from
    the register as the first [begin] left it: after [begin p1] on a
    register holding [V], [begin p2] saves [(V & 0b11111000) | (p1 & 7)],
    and the next [end] writes that value to the register; it is [V] only
    when the low three bits of [V] were those of [p1] already. *)
Theorem nested_begin_resnapshots (p1 p2 : Z) (m : Machine) :
  exists m1 m2 m3,
    begin p1 m = Some (true, m1) /\
    begin p2 m1 = Some (true, m2) /\
    _backupADCSRA (self m2) = Z.lor (Z.land (ADCSRA m) 248) (Z.land p1 7) /\
    end_ m2 = Some (tt, m3) /\
    ADCSRA m3 = Z.lor (Z.land (ADCSRA m) 248) (Z.land p1 7) /\
    (Z.land (ADCSRA m) 7 <> Z.land p1 7 -> ADCSRA m3 <> ADCSRA m).
Proof.
  do 3 eexists.
  split; [apply begin_run |].
  split; [apply begin_run |].
  split; [reflexivity |].
  split; [apply end_run |].
  cbn. split; [reflexivity |].
  intros Hne Heq. apply Hne. rewrite <- Heq at 1. apply merged_low3.
Qed.

Lemma nested_begin_resnapshots_witness :
  exists m3,
    (begin 4 ;; begin 2 ;; end_) (boot 167) = Some (tt, m3) /\
    ADCSRA m3 = 164 /\ ADCSRA m3 <> 167.
Proof.
  destruct (nested_begin_resnapshots 4 2 (boot 167))
    as (m1 & m2 & m3 & H1 & H2 & _ & H3 & Hv & Hne).
  exists m3. repeat split.
  - unfold bind. rewrite H1, H2. exact H3.
  - exact Hv.
  - apply Hne. cbn. discriminate.
Defined.

(** ** The summation loop *)

Section Loop.

Variable adc : Z -> nat -> Z.
Variable pin : Z.

Lemma u32_range (z : Z) : 0 <= u32 z < 2 ^ 32.
Proof. unfold u32. apply Z.mod_pos_bound. lia. Qed.

Lemma u32_small (z : Z) : 0 <= z < 2 ^ 32 -> u32 z = z.
Proof. unfold u32. apply Z.mod_small. Qed.

Lemma u16_small (z : Z) : 0 <= z < 2 ^ 16 -> u16 z = z.
Proof. unfold u16. apply Z.mod_small. Qed.

Lemma u8_small (z : Z) : 0 <= z < 2 ^ 8 -> u8 z = z.
Proof. unfold u8. apply Z.mod_small. Qed.

Lemma u32_add_idemp (a b : Z) : u32 (u32 a + b) = u32 (a + b).
Proof. unfold u32. apply Z.add_mod_idemp_l. lia. Qed.

Lemma bump_succ (n : nat) (m : Machine) :
  bump n (mkMachine (ADCSRA m) (S (conversions m)) (self m)) = bump (S n) m.
Proof. unfold bump. cbn. f_equal. lia. Qed.

(** With enough fuel the loop runs to its end: started at [i] with [n]
    iterations to go, it makes [n] conversions and adds them to [sum]
    modulo [2^32]. *)
Lemma for_sum_run (n : nat) :
  forall (fuel : nat) (samples i sum : Z) (m : Machine),
    0 <= i -> samples = i + Z.of_nat n -> samples < 2 ^ 16 ->
    (n < fuel)%nat -> 0 <= sum < 2 ^ 32 ->
    for_sum adc fuel samples pin i sum m =
    Some (u32 (sum + sum_samples adc pin (conversions m) n), bump n m).
Proof.
  induction n as [| n IH]; intros fuel samples i sum m Hi Hs Hlt Hf Hsum;
    (destruct fuel as [| fuel]; [lia |]); cbn [for_sum sum_samples].
  - destruct (Z.ltb_spec i samples); [lia |].
    unfold ret, bump. rewrite Z.add_0_r, u32_small by exact Hsum.
    destruct m; cbn. now rewrite Nat.add_0_r.
  - destruct (Z.ltb_spec i samples); [| lia].
    unfold bind at 1, analogRead at 1.
    rewrite u16_small by lia.
    rewrite (IH fuel samples (i + 1) _ _) by (try apply u32_range; cbn; lia).
    cbn [conversions]. rewrite u32_add_idemp, Z.add_assoc, bump_succ.
    reflexivity.
Qed.

Lemma loop_fuel_enough (samples : Z) :
  samples < 2 ^ 16 -> (Z.to_nat samples < loop_fuel)%nat.
Proof. unfold loop_fuel. lia. Qed.

Lemma accumulate_unfold (samples : Z) (m : Machine) :
  accumulate adc samples pin m = for_sum adc loop_fuel samples pin 0 0 m.
Proof. unfold accumulate. reflexivity. Qed.

(** The loop of the source, from [i = 0] and [sum = 0]. *)
Lemma accumulate_run (samples : Z) (m : Machine) :
  0 <= samples < 2 ^ 16 ->
  accumulate adc samples pin m =
  Some (u32 (sum_samples adc pin (conversions m) (Z.to_nat samples)),
        bump (Z.to_nat samples) m).
Proof.
  intros Hs. rewrite accumulate_unfold.
  rewrite (for_sum_run (Z.to_nat samples)); try lia.
  - reflexivity.
  - now apply loop_fuel_enough.
Qed.

(** Whatever its arguments, the loop changes nothing but the count of
    conversions. *)
Lemma for_sum_frame (fuel : nat) :
  forall (samples i sum : Z) (m : Machine) v m',
    for_sum adc fuel samples pin i sum m = Some (v, m') ->
    exists k, m' = bump k m.
Proof.
  induction fuel as [| fuel IH]; intros samples i sum m v m' H;
    cbn [for_sum] in H; [discriminate |].
  destruct (i <? samples).
  - unfold bind at 1, analogRead at 1 in H.
    apply IH in H. destruct H as [k ->].
    exists (S k). apply bump_succ.
  - inversion H; subst. exists 0%nat. unfold bump.
    destruct m'; cbn. now rewrite Nat.add_0_r.
Qed.

(** Sums of 10-bit conversions. *)
Lemma sum_samples_bounds :
  ten_bit adc pin ->
  forall n c, 0 <= sum_samples adc pin c n <= 1023 * Z.of_nat n.
Proof.
  intros Hr. induction n as [| n IH]; intros c; cbn [sum_samples]; [lia |].
  specialize (IH (S c)). specialize (Hr c). lia.
Qed.

Lemma sum_samples_const (s : Z) :
  (forall k, adc pin k = s) ->
  forall n c, sum_samples adc pin c n = Z.of_nat n * s.
Proof.
  intros Hc. induction n as [| n IH]; intros c; cbn [sum_samples]; [lia |].
  rewrite Hc, IH. lia.
Qed.

Lemma sum_samples_one (c : nat) : sum_samples adc pin c 1 = adc pin c.
Proof. cbn. lia. Qed.

End Loop.

(** ** Compile-time constants *)

Lemma u16_s16 (z : Z) : u16 (s16 z) = u16 z.
Proof.
  unfold u16, s16. rewrite Zminus_mod_idemp_l. f_equal. lia.
Qed.

Lemma pow2_lt_16 (n : Z) : 0 <= n <= 15 -> 0 < 2 ^ n < 2 ^ 16.
Proof.
  intros H. split; [apply Z.pow_pos_nonneg; lia |].
  apply Z.pow_lt_mono_r; lia.
Qed.

(** [1 << n] on [int] has a value exactly for [n] from 0 to 15. *)
Lemma int_shl_one (n : Z) : 0 <= n <= 15 -> int_shl 1 n = Some (s16 (2 ^ n)).
Proof.
  intros H. unfold int_shl. pose proof (pow2_lt_16 n H).
  rewrite Z.mul_1_l.
  destruct (Z.leb_spec 0 1); [| lia].
  destruct (Z.leb_spec 0 n); [| lia].
  destruct (Z.ltb_spec n 16); [| lia].
  destruct (Z.ltb_spec (2 ^ n) (2 ^ 16)); [| lia].
  reflexivity.
Qed.

Lemma int_shl_defined (a n r : Z) : int_shl a n = Some r -> 0 <= n <= 15.
Proof.
  unfold int_shl.
  destruct (Z.leb_spec 0 a), (Z.leb_spec 0 n), (Z.ltb_spec n 16);
    cbn; try discriminate.
  intros _. lia.
Qed.

Lemma samples_pow2 (n : Z) : 0 <= n <= 15 -> u16 (s16 (2 ^ n)) = 2 ^ n.
Proof.
  intros H. rewrite u16_s16. apply u16_small. pose proof (pow2_lt_16 n H). lia.
Qed.

Lemma ulong_shr_small (a n : Z) : 0 <= n <= 15 -> ulong_shr a n = Some (Z.shiftr a n).
Proof.
  intros H. unfold ulong_shr.
  destruct (Z.leb_spec 0 n); [| lia]. destruct (Z.ltb_spec n 32); [| lia].
  reflexivity.
Qed.

Lemma uint_shl_small (a n : Z) :
  0 <= n <= 15 -> uint_shl a n = Some (u16 (Z.shiftl a n)).
Proof.
  intros H. unfold uint_shl.
  destruct (Z.leb_spec 0 n); [| lia]. destruct (Z.ltb_spec n 16); [| lia].
  reflexivity.
Qed.

(** Widening a 10-bit average by [e] bits stays within [10 + e] bits. *)
Lemma widen_bounds (avg e : Z) :
  0 <= avg <= 1023 -> 0 <= e <= 6 -> 0 <= Z.shiftl avg e < 2 ^ (10 + e).
Proof.
  intros Ha He. rewrite Z.shiftl_mul_pow2 by lia.
  rewrite Z.pow_add_r by lia.
  assert (0 < 2 ^ e) by (apply Z.pow_pos_nonneg; lia).
  change (2 ^ 10) with 1024. nia.
Qed.

Lemma widen_small (avg e : Z) :
  0 <= avg <= 1023 -> 0 <= e <= 6 ->
  u16 (u16 (Z.shiftl (u16 avg) e)) = Z.shiftl avg e.
Proof.
  intros Ha He. pose proof (widen_bounds avg e Ha He) as Hw.
  assert (2 ^ (10 + e) <= 2 ^ 16) by (apply Z.pow_le_mono_r; lia).
  rewrite (u16_small avg) by (change (2 ^ 16) with 65536; lia).
  rewrite (u16_small (Z.shiftl avg e)) by lia.
  apply u16_small. lia.
Qed.

(** ** The reads, in one equation each *)

Section ReadsRun.

Variable adc : Z -> nat -> Z.
Variable pin : Z.

Lemma readAveraged_run (AVG_POW2 : Z) (m : Machine) :
  0 <= AVG_POW2 <= 15 ->
  readAveraged adc AVG_POW2 pin m =
  Some (u16 (Z.shiftr
               (u32 (sum_samples adc pin (conversions m) (Z.to_nat (2 ^ AVG_POW2))))
               AVG_POW2),
        bump (Z.to_nat (2 ^ AVG_POW2)) m).
Proof.
  intros HA. pose proof (pow2_lt_16 _ HA).
  unfold readAveraged, bind at 1.
  rewrite int_shl_one by exact HA. unfold lift at 1.
  rewrite samples_pow2 by exact HA.
  unfold bind at 1. rewrite accumulate_run by lia.
  unfold bind, lift, ret. rewrite ulong_shr_small by exact HA.
  reflexivity.
Qed.

Lemma readAveraged_defined (AVG_POW2 : Z) (m : Machine) v m' :
  readAveraged adc AVG_POW2 pin m = Some (v, m') -> 0 <= AVG_POW2 <= 15.
Proof.
  unfold readAveraged, bind at 1, lift at 1.
  destruct (int_shl 1 AVG_POW2) as [one |] eqn:E; [| discriminate].
  intros _. now apply int_shl_defined in E.
Qed.

Lemma static_assert_bits_ok (OUTPUT_BITS : Z) (m : Machine) :
  10 <= OUTPUT_BITS <= 16 -> static_assert_bits OUTPUT_BITS m = Some (tt, m).
Proof.
  intros H. unfold static_assert_bits.
  destruct (Z.leb_spec 10 OUTPUT_BITS); [| lia].
  destruct (Z.leb_spec OUTPUT_BITS 16); [| lia].
  reflexivity.
Qed.

Lemma static_assert_bits_inv (OUTPUT_BITS : Z) (m : Machine) r :
  static_assert_bits OUTPUT_BITS m = Some r ->
  10 <= OUTPUT_BITS <= 16 /\ r = (tt, m).
Proof.
  unfold static_assert_bits.
  destruct (Z.leb_spec 10 OUTPUT_BITS), (Z.leb_spec OUTPUT_BITS 16);
    cbn; unfold ret, undefined; intros E; inversion E; subst.
  split; [lia | reflexivity].
Qed.

Lemma extraBits_small (OUTPUT_BITS : Z) :
  10 <= OUTPUT_BITS <= 16 -> u8 (OUTPUT_BITS - 10) = OUTPUT_BITS - 10.
Proof. intros H. apply u8_small. lia. Qed.

(** The combined read, for any template arguments that give [samples]
    a value; [t] is [totalPow2] as the [uint8_t] it is stored in. *)
Lemma readHighResAveraged_run (OUTPUT_BITS AVG_POW2 : Z) (m : Machine) :
  10 <= OUTPUT_BITS <= 16 ->
  let e := OUTPUT_BITS - 10 in
  let t := u8 (2 * e + AVG_POW2) in
  t <= 15 ->
  readHighResAveraged adc OUTPUT_BITS AVG_POW2 pin m =
  Some (u16 (u16 (Z.shiftl
                    (u16 (Z.shiftr
                            (u32 (sum_samples adc pin (conversions m)
                                    (Z.to_nat (2 ^ t))))
                            t))
                    e)),
        bump (Z.to_nat (2 ^ t)) m).
Proof.
  intros HB e t Ht.
  assert (Ht' : 0 <= t <= 15).
  { split; [| exact Ht]. unfold t, u8. apply Z.mod_pos_bound. lia. }
  pose proof (pow2_lt_16 _ Ht').
  unfold readHighResAveraged, bind at 1.
  rewrite static_assert_bits_ok by exact HB.
  rewrite extraBits_small by exact HB. fold e. fold t.
  unfold bind at 1. rewrite int_shl_one by exact Ht'. unfold lift at 1.
  rewrite samples_pow2 by exact Ht'.
  unfold bind at 1. rewrite accumulate_run by lia.
  unfold bind, lift, ret.
  rewrite ulong_shr_small by exact Ht'.
  rewrite uint_shl_small by (unfold e; lia).
  reflexivity.
Qed.

Lemma readHighRes_run (OUTPUT_BITS : Z) (m : Machine) :
  10 <= OUTPUT_BITS <= 16 ->
  let e := OUTPUT_BITS - 10 in
  readHighRes adc OUTPUT_BITS pin m =
  Some (u16 (u16 (Z.shiftl
                    (u16 (Z.shiftr
                            (u32 (sum_samples adc pin (conversions m)
                                    (Z.to_nat (2 ^ (2 * e)))))
                            (2 * e)))
                    e)),
        bump (Z.to_nat (2 ^ (2 * e))) m).
Proof.
  intros HB e.
  assert (Ht : 0 <= 2 * e <= 15) by (unfold e; lia).
  pose proof (pow2_lt_16 _ Ht).
  unfold readHighRes, bind at 1.
  rewrite static_assert_bits_ok by exact HB.
  rewrite extraBits_small by exact HB. fold e.
  unfold bind at 1. rewrite int_shl_one by exact Ht. unfold lift at 1.
  rewrite samples_pow2 by exact Ht.
  unfold bind at 1. rewrite accumulate_run by lia.
  unfold bind, lift, ret.
  rewrite ulong_shr_small by exact Ht.
  rewrite uint_shl_small by (unfold e; lia).
  reflexivity.
Qed.

Lemma readHighRes_defined (OUTPUT_BITS : Z) (m : Machine) v m' :
  readHighRes adc OUTPUT_BITS pin m = Some (v, m') -> 10 <= OUTPUT_BITS <= 16.
Proof.
  unfold readHighRes, bind at 1.
  destruct (static_assert_bits OUTPUT_BITS m) as [r |] eqn:E; [| discriminate].
  intros _. now apply static_assert_bits_inv in E.
Qed.

Lemma readHighResAveraged_defined (OUTPUT_BITS AVG_POW2 : Z) (m : Machine) v m' :
  readHighResAveraged adc OUTPUT_BITS AVG_POW2 pin m = Some (v, m') ->
  10 <= OUTPUT_BITS <= 16 /\ u8 (2 * (OUTPUT_BITS - 10) + AVG_POW2) <= 15.
Proof.
  unfold readHighResAveraged, bind at 1.
  destruct (static_assert_bits OUTPUT_BITS m) as [r |] eqn:E; [| discriminate].
  apply static_assert_bits_inv in E. destruct E as [HB ->].
  rewrite extraBits_small by exact HB.
  unfold bind at 1, lift at 1.
  destruct (int_shl 1 _) as [one |] eqn:E; [| discriminate].
  intros _. apply int_shl_defined in E. split; [exact HB | lia].
Qed.

(** *** With 10-bit conversions nothing wraps *)

Hypothesis in_range : ten_bit adc pin.

Lemma sum_pow2_bounds (n : Z) (c : nat) :
  0 <= n <= 15 ->
  0 <= sum_samples adc pin c (Z.to_nat (2 ^ n)) <= 1023 * 2 ^ n.
Proof.
  intros Hn. pose proof (pow2_lt_16 _ Hn).
  pose proof (sum_samples_bounds adc pin in_range (Z.to_nat (2 ^ n)) c).
  lia.
Qed.

Lemma sum_pow2_u32 (n : Z) (c : nat) :
  0 <= n <= 15 ->
  u32 (sum_samples adc pin c (Z.to_nat (2 ^ n))) =
  sum_samples adc pin c (Z.to_nat (2 ^ n)).
Proof.
  intros Hn. pose proof (pow2_lt_16 _ Hn). pose proof (sum_pow2_bounds n c Hn).
  apply u32_small. change (2 ^ 32) with (2 ^ 16 * 2 ^ 16). nia.
Qed.

Lemma avg_bounds (n : Z) (c : nat) :
  0 <= n <= 15 ->
  0 <= Z.shiftr (sum_samples adc pin c (Z.to_nat (2 ^ n))) n <= 1023.
Proof.
  intros Hn. pose proof (pow2_lt_16 _ Hn). pose proof (sum_pow2_bounds n c Hn).
  rewrite Z.shiftr_div_pow2 by lia. split.
  - apply Z.div_pos; lia.
  - apply Z.div_le_upper_bound; lia.
Qed.

Lemma readAveraged_ten_bit (AVG_POW2 : Z) (m : Machine) :
  0 <= AVG_POW2 <= 15 ->
  readAveraged adc AVG_POW2 pin m =
  Some (Z.shiftr (sum_samples adc pin (conversions m) (Z.to_nat (2 ^ AVG_POW2)))
          AVG_POW2,
        bump (Z.to_nat (2 ^ AVG_POW2)) m).
Proof.
  intros HA. rewrite readAveraged_run, sum_pow2_u32 by exact HA.
  pose proof (avg_bounds AVG_POW2 (conversions m) HA) as Hb.
  rewrite u16_small; [reflexivity | change (2 ^ 16) with 65536; lia].
Qed.

Lemma readHighRes_ten_bit (OUTPUT_BITS : Z) (m : Machine) :
  10 <= OUTPUT_BITS <= 16 ->
  let e := OUTPUT_BITS - 10 in
  readHighRes adc OUTPUT_BITS pin m =
  Some (Z.shiftl
          (Z.shiftr (sum_samples adc pin (conversions m) (Z.to_nat (2 ^ (2 * e))))
             (2 * e))
          e,
        bump (Z.to_nat (2 ^ (2 * e))) m).
Proof.
  intros HB e. assert (Ht : 0 <= 2 * e <= 15) by (unfold e; lia).
  rewrite readHighRes_run by exact HB. fold e.
  rewrite sum_pow2_u32 by exact Ht.
  rewrite widen_small; [reflexivity | | unfold e; lia].
  apply avg_bounds, Ht.
Qed.

Lemma readHighResAveraged_ten_bit (OUTPUT_BITS AVG_POW2 : Z) (m : Machine) :
  10 <= OUTPUT_BITS <= 16 -> 0 <= AVG_POW2 ->
  let e := OUTPUT_BITS - 10 in
  let t := 2 * e + AVG_POW2 in
  t <= 15 ->
  readHighResAveraged adc OUTPUT_BITS AVG_POW2 pin m =
  Some (Z.shiftl
          (Z.shiftr (sum_samples adc pin (conversions m) (Z.to_nat (2 ^ t))) t)
          e,
        bump (Z.to_nat (2 ^ t)) m).
Proof.
  intros HB HA e t Ht. assert (Ht' : 0 <= t <= 15) by (unfold t, e; lia).
  assert (Eu : u8 (2 * (OUTPUT_BITS - 10) + AVG_POW2) = t).
  { apply u8_small. fold e. fold t. change (2 ^ 8) with 256. lia. }
  rewrite readHighResAveraged_run by (try exact HB; lia).
  rewrite Eu. fold e.
  rewrite sum_pow2_u32 by exact Ht'.
  rewrite widen_small; [reflexivity | | unfold e; lia].
  apply avg_bounds, Ht'.
Qed.

End ReadsRun.

Lemma steady_ten_bit (s pin : Z) : 0 <= s <= 1023 -> ten_bit (steady s) pin.
Proof. intros H k. exact H. Qed.

Lemma feed_ten_bit (xs : list Z) (pin : Z) :
  Forall (fun x => 0 <= x <= 1023) xs -> ten_bit (feed xs) pin.
Proof.
  intros H k. unfold feed. revert k.
  induction H as [| x xs Hx _ IH]; intros [| k]; cbn; try lia. apply IH.
Qed.

(** ** Averaged reads *)

(** C5, as the code has it: for [AVG_POW2] from 0 to 15 (the values for
    which [1 << AVG_POW2] fits the 16-bit loop bound) and 10-bit
    conversions, [readAveraged<AVG_POW2>] makes [2^AVG_POW2] consecutive
    conversions and returns their sum shifted right by [AVG_POW2]; for
    [AVG_POW2 = 0] that is the one conversion itself, and when all
    conversions return the same [s] it is [s]. *)
Theorem readAveraged_correct (adc : Z -> nat -> Z) (AVG_POW2 pin : Z) (m : Machine) :
  0 <= AVG_POW2 <= 15 -> ten_bit adc pin ->
  let n := Z.to_nat (2 ^ AVG_POW2) in
  let sum := sum_samples adc pin (conversions m) n in
  readAveraged adc AVG_POW2 pin m = Some (Z.shiftr sum AVG_POW2, bump n m) /\
  Z.of_nat n = 2 ^ AVG_POW2 /\
  (AVG_POW2 = 0 -> Z.shiftr sum AVG_POW2 = adc pin (conversions m)) /\
  (forall s, (forall k, adc pin k = s) -> Z.shiftr sum AVG_POW2 = s).
Proof.
  intros HA Hr n sum. pose proof (pow2_lt_16 _ HA) as Hp.
  assert (Hn : Z.of_nat n = 2 ^ AVG_POW2) by (unfold n; lia).
  split; [| split; [exact Hn | split]].
  - now apply readAveraged_ten_bit.
  - intros ->. unfold sum, n. change (Z.to_nat (2 ^ 0)) with 1%nat.
    rewrite sum_samples_one. apply Z.shiftr_0_r.
  - intros s Hs. unfold sum. rewrite (sum_samples_const adc pin s Hs).
    rewrite Hn, Z.shiftr_div_pow2 by lia. rewrite Z.mul_comm.
    apply Z.div_mul. lia.
Qed.

Lemma readAveraged_correct_witness :
  readAveraged (feed [100; 102; 98; 100]) 2 0 (boot 135) =
  Some (100, bump 4 (boot 135)).
Proof.
  refine (proj1 (readAveraged_correct (feed [100; 102; 98; 100]) 2 0 (boot 135) _ _)).
  - lia.
  - apply feed_ten_bit. repeat constructor; lia.
Defined.

(** C5 as it is written fails at [AVG_POW2 = 16]: [1 << 16] has no value
    on a 16-bit [int], so no read of [2^16] conversions takes place. *)
Lemma readAveraged_16_counterexample :
  ~ (exists v m',
       readAveraged (steady 512) 16 0 (boot 135) = Some (v, m') /\
       conversions m' = Z.to_nat (2 ^ 16) /\ v = 512).
Proof.
  intros (v & m' & H & _). vm_compute in H. discriminate.
Qed.

(** ** Oversampled reads *)

(** C6. For [OUTPUT_BITS] from 10 to 16 and [extraBits = OUTPUT_BITS - 10],
    [readHighRes<OUTPUT_BITS>] makes [2^(2*extraBits)] consecutive
    conversions; the low [extraBits] bits of what it returns are zero;
    with 10-bit conversions it returns [(sum >> (2*extraBits)) << extraBits],
    and [readHighRes<10>] returns its one conversion as it is. *)
Theorem readHighRes_correct (adc : Z -> nat -> Z) (OUTPUT_BITS pin : Z) (m : Machine) :
  10 <= OUTPUT_BITS <= 16 ->
  let extraBits := OUTPUT_BITS - 10 in
  let n := Z.to_nat (2 ^ (2 * extraBits)) in
  let sum := sum_samples adc pin (conversions m) n in
  Z.of_nat n = 2 ^ (2 * extraBits) /\
  (exists v,
     readHighRes adc OUTPUT_BITS pin m = Some (v, bump n m) /\
     forall i, 0 <= i < extraBits -> Z.testbit v i = false) /\
  (ten_bit adc pin ->
     readHighRes adc OUTPUT_BITS pin m =
       Some (Z.shiftl (Z.shiftr sum (2 * extraBits)) extraBits, bump n m) /\
     (OUTPUT_BITS = 10 ->
        readHighRes adc OUTPUT_BITS pin m = Some (adc pin (conversions m), bump 1 m))).
Proof.
  intros HB e n sum.
  assert (Ht : 0 <= 2 * e <= 15) by (unfold e; lia).
  pose proof (pow2_lt_16 _ Ht) as Hp.
  assert (Hgen : forall Hr : ten_bit adc pin,
             readHighRes adc OUTPUT_BITS pin m =
             Some (Z.shiftl (Z.shiftr sum (2 * e)) e, bump n m)).
  { intros Hr. now apply readHighRes_ten_bit. }
  split; [unfold n; lia | split].
  - eexists. split; [apply readHighRes_run; exact HB |].
    intros i Hi. fold e in Hi |- *. unfold u16 at 1 2.
    rewrite !Z.mod_pow2_bits_low by lia.
    apply Z.shiftl_spec_low. lia.
  - intros Hr. split; [apply Hgen, Hr |].
    intros E. rewrite (Hgen Hr). unfold sum, n, e. rewrite E. cbn [Z.sub Z.mul].
    change (Z.to_nat (2 ^ (2 * (10 - 10)))) with 1%nat.
    rewrite sum_samples_one. reflexivity.
Qed.

Lemma readHighRes_correct_witness :
  readHighRes (steady 500) 12 0 (boot 135) = Some (2000, bump 16 (boot 135)).
Proof.
  refine (proj1 (proj2 (proj2
    (readHighRes_correct (steady 500) 12 0 (boot 135) _)) _)).
  - lia.
  - apply steady_ten_bit. lia.
Defined.

(** ** Bounds on what the reads return *)

(** C10. With conversions of at most 10 bits, [readHighRes<OUTPUT_BITS>]
    returns, for [OUTPUT_BITS] from 10 to 16, a value below
    [2^OUTPUT_BITS]; [readAveraged<AVG_POW2>] returns, for [AVG_POW2] from
    0 to 15, a value of at most 1023, and no instance of it returns
    anything larger. *)
Theorem reads_bounded (adc : Z -> nat -> Z) (pin : Z) (m : Machine) :
  ten_bit adc pin ->
  (forall OUTPUT_BITS, 10 <= OUTPUT_BITS <= 16 ->
     exists v m', readHighRes adc OUTPUT_BITS pin m = Some (v, m') /\
                  0 <= v < 2 ^ OUTPUT_BITS) /\
  (forall AVG_POW2, 0 <= AVG_POW2 <= 15 ->
     exists v m', readAveraged adc AVG_POW2 pin m = Some (v, m') /\
                  0 <= v <= 1023) /\
  (forall AVG_POW2 v m',
     readAveraged adc AVG_POW2 pin m = Some (v, m') -> 0 <= v <= 1023).
Proof.
  intros Hr.
  assert (Havg : forall A, 0 <= A <= 15 ->
            exists v m', readAveraged adc A pin m = Some (v, m') /\ 0 <= v <= 1023).
  { intros A HA. do 2 eexists. split; [apply readAveraged_run; exact HA |].
    rewrite sum_pow2_u32 by assumption.
    pose proof (avg_bounds adc pin Hr A (conversions m) HA) as Hb.
    rewrite u16_small; [exact Hb | change (2 ^ 16) with 65536; lia]. }
  split; [| split; [exact Havg |]].
  - intros OB HB.
    assert (Ht : 0 <= 2 * (OB - 10) <= 15) by lia.
    do 2 eexists. split; [apply readHighRes_run; exact HB |].
    rewrite sum_pow2_u32 by assumption.
    pose proof (avg_bounds adc pin Hr _ (conversions m) Ht) as Hb.
    rewrite widen_small by (try exact Hb; lia).
    pose proof (widen_bounds _ (OB - 10) Hb ltac:(lia)) as Hw.
    replace (10 + (OB - 10)) with OB in Hw by lia. exact Hw.
  - intros A v m' H.
    destruct (Havg A (readAveraged_defined adc pin A m v m' H)) as (v' & m'' & E & Hb).
    rewrite H in E. inversion E; subst. exact Hb.
Qed.

Lemma reads_bounded_witness :
  (exists v m', readHighRes (steady 1023) 16 0 (boot 135) = Some (v, m') /\
                0 <= v < 2 ^ 16) /\
  (exists v m', readAveraged (steady 1023) 15 0 (boot 135) = Some (v, m') /\
                0 <= v <= 1023).
Proof.
  pose proof (reads_bounded (steady 1023) 0 (boot 135)
                (steady_ten_bit 1023 0 ltac:(lia))) as (Hh & Ha & _).
  split; [apply Hh | apply Ha]; lia.
Defined.

(** ** Number of conversions and the accumulator *)

(** C4, as the code has it: when the nominal count is [2^n] with [n] at
    most 15, so that it fits the 16-bit loop bound, the loop makes exactly
    [2^n] conversions, its 32-bit accumulator ends as their exact sum, no
    partial sum of 10-bit conversions reaching [2^32]; and each averaging
    read with that nominal count leaves the machine [2^n] conversions
    later. *)
Theorem reads_poll_count (adc : Z -> nat -> Z) (pin n : Z) (m : Machine) :
  0 <= n <= 15 -> ten_bit adc pin ->
  let N := Z.to_nat (2 ^ n) in
  Z.of_nat N = 2 ^ n /\
  accumulate adc (2 ^ n) pin m =
    Some (sum_samples adc pin (conversions m) N, bump N m) /\
  (forall j, (j <= N)%nat -> 0 <= sum_samples adc pin (conversions m) j < 2 ^ 32) /\
  (exists v, readAveraged adc n pin m = Some (v, bump N m)) /\
  (forall OUTPUT_BITS, 10 <= OUTPUT_BITS <= 16 -> 2 * (OUTPUT_BITS - 10) = n ->
     exists v, readHighRes adc OUTPUT_BITS pin m = Some (v, bump N m)) /\
  (forall OUTPUT_BITS AVG_POW2,
     10 <= OUTPUT_BITS <= 16 -> 0 <= AVG_POW2 ->
     2 * (OUTPUT_BITS - 10) + AVG_POW2 = n ->
     exists v, readHighResAveraged adc OUTPUT_BITS AVG_POW2 pin m = Some (v, bump N m)).
Proof.
  intros Hn Hr N. pose proof (pow2_lt_16 _ Hn) as Hp.
  split; [unfold N; lia |].
  split; [| split; [| split; [| split]]].
  - rewrite accumulate_run by lia. fold N. unfold N at 1.
    rewrite sum_pow2_u32 by assumption. reflexivity.
  - intros j Hj.
    pose proof (sum_samples_bounds adc pin Hr j (conversions m)) as Hb.
    assert (Z.of_nat j <= 2 ^ n) by (unfold N in Hj; lia).
    change (2 ^ 32) with (2 ^ 16 * 2 ^ 16). nia.
  - eexists. apply readAveraged_run. exact Hn.
  - intros OB HB E. eexists. rewrite readHighRes_run by exact HB.
    rewrite E. reflexivity.
  - intros OB A HB HA E. eexists.
    assert (Eu : u8 (2 * (OB - 10) + A) = n) by (rewrite E; apply u8_small; lia).
    rewrite readHighResAveraged_run by (try exact HB; lia).
    rewrite Eu. reflexivity.
Qed.

Lemma reads_poll_count_witness :
  exists v,
    readHighResAveraged (steady 1023) 12 2 0 (boot 135) =
    Some (v, bump 64 (boot 135)).
Proof.
  pose proof (reads_poll_count (steady 1023) 0 6 (boot 135) ltac:(lia)
                (steady_ten_bit 1023 0 ltac:(lia))) as (_ & _ & _ & _ & _ & H).
  destruct (H 12 2 ltac:(lia) ltac:(lia) ltac:(lia)) as [v Hv].
  exists v. exact Hv.
Defined.

(** C4 as it is written fails at [OUTPUT_BITS = 16], [AVG_POW2 = 4]: the
    nominal count is [2^16], which the 16-bit [samples] cannot hold, and
    no read of [2^16] conversions takes place. *)
Lemma poll_count_65536_counterexample :
  ~ (exists v m',
       readHighResAveraged (steady 1023) 16 4 0 (boot 135) = Some (v, m') /\
       conversions m' = Z.to_nat (2 ^ (2 * (16 - 10) + 4))).
Proof.
  intros (v & m' & H & _). vm_compute in H. discriminate.
Qed.

(** ** What the reads leave alone *)

Section Frame.

Variable adc : Z -> nat -> Z.

Lemma only_converts_refl (m : Machine) : only_converts m m.
Proof.
  exists 0%nat. unfold bump. destruct m; cbn. now rewrite Nat.add_0_r.
Qed.

Lemma bump_bump (a b : nat) (m : Machine) : bump a (bump b m) = bump (b + a) m.
Proof. unfold bump. cbn. f_equal. lia. Qed.

Lemma only_converts_trans (m1 m2 m3 : Machine) :
  only_converts m1 m2 -> only_converts m2 m3 -> only_converts m1 m3.
Proof.
  intros [a ->] [b ->]. exists (a + b)%nat. apply bump_bump.
Qed.

Lemma only_converts_untouched (m m' : Machine) :
  only_converts m m' -> ADCSRA m' = ADCSRA m /\ self m' = self m.
Proof. intros [k ->]. split; reflexivity. Qed.

Lemma frames_ret {A} (a : A) : frames (ret a).
Proof.
  intros m v m' H. inversion H; subst. apply only_converts_refl.
Qed.

Lemma frames_undefined {A} : frames (@undefined A).
Proof. intros m v m' H. discriminate. Qed.

Lemma frames_lift {A} (o : option A) : frames (lift o).
Proof.
  intros m v m' H. unfold lift in H. destruct o; inversion H; subst.
  apply only_converts_refl.
Qed.

Lemma frames_bind {A B} (c : M A) (k : A -> M B) :
  frames c -> (forall a, frames (k a)) -> frames (bind c k).
Proof.
  intros Hc Hk m v m' H. unfold bind in H.
  destruct (c m) as [[a m1] |] eqn:E; [| discriminate].
  eapply only_converts_trans; [eapply Hc, E | eapply Hk, H].
Qed.

Lemma frames_analogRead (pin : Z) : frames (analogRead adc pin).
Proof.
  intros m v m' H. inversion H; subst. exists 1%nat.
  unfold bump. f_equal. lia.
Qed.

Lemma frames_accumulate (samples pin : Z) : frames (accumulate adc samples pin).
Proof.
  intros m v m' H. rewrite accumulate_unfold in H.
  eapply for_sum_frame, H.
Qed.

Lemma frames_static_assert_bits (OUTPUT_BITS : Z) :
  frames (static_assert_bits OUTPUT_BITS).
Proof.
  unfold static_assert_bits.
  destruct (_ && _); [apply frames_ret | apply frames_undefined].
Qed.

Ltac frame_steps :=
  repeat first
    [ apply frames_bind; [| intro]
    | apply frames_ret
    | apply frames_lift
    | apply frames_analogRead
    | apply frames_accumulate
    | apply frames_static_assert_bits ].

Lemma frames_read (pin : Z) : frames (read adc pin).
Proof. unfold read. frame_steps. Qed.

Lemma frames_readAveraged (AVG_POW2 pin : Z) :
  frames (readAveraged adc AVG_POW2 pin).
Proof. unfold readAveraged. frame_steps. Qed.

Lemma frames_readHighRes (OUTPUT_BITS pin : Z) :
  frames (readHighRes adc OUTPUT_BITS pin).
Proof. unfold readHighRes. frame_steps. Qed.

Lemma frames_readHighResAveraged (OUTPUT_BITS AVG_POW2 pin : Z) :
  frames (readHighResAveraged adc OUTPUT_BITS AVG_POW2 pin).
Proof. unfold readHighResAveraged. frame_steps. Qed.

(** C9. The four reads leave the register [ADCSRA] and the three fields
    of the object as they found them: the machine after a read is the
    machine before it, some conversions later.  [read] always returns, one
    conversion later. *)
Theorem reads_frame (pin : Z) (m : Machine) :
  (exists v, read adc pin m = Some (v, bump 1 m)) /\
  (forall v m', read adc pin m = Some (v, m') ->
     only_converts m m' /\ ADCSRA m' = ADCSRA m /\ self m' = self m) /\
  (forall AVG_POW2 v m', readAveraged adc AVG_POW2 pin m = Some (v, m') ->
     only_converts m m' /\ ADCSRA m' = ADCSRA m /\ self m' = self m) /\
  (forall OUTPUT_BITS v m', readHighRes adc OUTPUT_BITS pin m = Some (v, m') ->
     only_converts m m' /\ ADCSRA m' = ADCSRA m /\ self m' = self m) /\
  (forall OUTPUT_BITS AVG_POW2 v m',
     readHighResAveraged adc OUTPUT_BITS AVG_POW2 pin m = Some (v, m') ->
     only_converts m m' /\ ADCSRA m' = ADCSRA m /\ self m' = self m).
Proof.
  split; [eexists; unfold read, bind, analogRead, ret, bump;
          rewrite Nat.add_1_r; reflexivity |].
  repeat split; intros;
    try (apply only_converts_untouched);
    first [ eapply frames_read; eassumption
          | eapply frames_readAveraged; eassumption
          | eapply frames_readHighRes; eassumption
          | eapply frames_readHighResAveraged; eassumption ].
Qed.

End Frame.

Lemma reads_frame_witness :
  only_converts (mkMachine 164 0 (mkReader 4 167 true))
                (mkMachine 164 8 (mkReader 4 167 true)) /\
  ADCSRA (mkMachine 164 8 (mkReader 4 167 true)) = 164 /\
  self (mkMachine 164 8 (mkReader 4 167 true)) = mkReader 4 167 true.
Proof.
  apply (proj2 (proj2 (proj2 (proj2
    (reads_frame (feed [2; 2; 2; 1; 3; 2; 2; 2]) 0
       (mkMachine 164 0 (mkReader 4 167 true)))))) 11 1 4).
  vm_compute. reflexivity.
Defined.

(** ** The combined read against decimate-then-average *)

Section TwoStep.

Variable adc : Z -> nat -> Z.
Variable pin : Z.
Hypothesis in_range : ten_bit adc pin.

(** At [OUTPUT_BITS = 10] the decimated values are the conversions. *)
Lemma readHighRes_10 (m : Machine) :
  readHighRes adc 10 pin m = Some (adc pin (conversions m), bump 1 m).
Proof.
  rewrite (readHighRes_ten_bit adc pin in_range 10 m) by lia.
  change (Z.to_nat (2 ^ (2 * (10 - 10)))) with 1%nat.
  rewrite sum_samples_one. reflexivity.
Qed.

Lemma spec_sum_decimated_10 (n : nat) :
  forall (acc : Z) (m : Machine),
    spec_sum_decimated adc n 10 pin acc m =
    Some (acc + sum_samples adc pin (conversions m) n, bump n m).
Proof.
  induction n as [| n IH]; intros acc m; cbn [spec_sum_decimated sum_samples].
  - unfold ret. rewrite Z.add_0_r. f_equal. f_equal.
    unfold bump. destruct m; cbn. now rewrite Nat.add_0_r.
  - unfold bind. rewrite readHighRes_10, IH, bump_bump.
    cbn [bump conversions]. rewrite Nat.add_1_r, Z.add_assoc. reflexivity.
Qed.

(** When every conversion returns [s], so does every decimation step,
    widened. *)
Lemma readHighRes_const (s OUTPUT_BITS : Z) (m : Machine) :
  (forall k, adc pin k = s) -> 10 <= OUTPUT_BITS <= 16 ->
  readHighRes adc OUTPUT_BITS pin m =
  Some (Z.shiftl s (OUTPUT_BITS - 10),
        bump (Z.to_nat (2 ^ (2 * (OUTPUT_BITS - 10)))) m).
Proof.
  intros Hs HB.
  assert (Ht : 0 <= 2 * (OUTPUT_BITS - 10) <= 15) by lia.
  pose proof (pow2_lt_16 _ Ht) as Hp.
  rewrite (readHighRes_ten_bit adc pin in_range OUTPUT_BITS m HB).
  rewrite (sum_samples_const adc pin s Hs).
  rewrite Z2Nat.id, Z.shiftr_div_pow2, Z.mul_comm, Z.div_mul by lia.
  reflexivity.
Qed.

Lemma spec_sum_decimated_const (s OUTPUT_BITS : Z) :
  (forall k, adc pin k = s) -> 10 <= OUTPUT_BITS <= 16 ->
  forall (n : nat) (acc : Z) (m : Machine),
    spec_sum_decimated adc n OUTPUT_BITS pin acc m =
    Some (acc + Z.of_nat n * Z.shiftl s (OUTPUT_BITS - 10),
          bump (n * Z.to_nat (2 ^ (2 * (OUTPUT_BITS - 10)))) m).
Proof.
  intros Hs HB. induction n as [| n IH]; intros acc m; cbn [spec_sum_decimated].
  - unfold ret. f_equal. f_equal; [lia |].
    unfold bump. destruct m; cbn. now rewrite Nat.add_0_r.
  - unfold bind. rewrite (readHighRes_const s OUTPUT_BITS m Hs HB), IH, bump_bump.
    f_equal. f_equal. lia.
Qed.

(** C3, as the code has it: for [OUTPUT_BITS] from 10 to 16, [AVG_POW2]
    with [totalPow2 = 2*extraBits + AVG_POW2] at most 15, and 10-bit
    conversions, [readHighResAveraged] returns
    [(sum >> totalPow2) << extraBits] for the sum of all [2^totalPow2]
    conversions; that is what decimating and then averaging returns when
    [AVG_POW2 = 0], when [OUTPUT_BITS = 10], or when all conversions
    return the same value. *)
Theorem combined_read_vs_two_step (OUTPUT_BITS AVG_POW2 : Z) (m : Machine) :
  10 <= OUTPUT_BITS <= 16 -> 0 <= AVG_POW2 ->
  let extraBits := OUTPUT_BITS - 10 in
  let totalPow2 := 2 * extraBits + AVG_POW2 in
  totalPow2 <= 15 ->
  let N := Z.to_nat (2 ^ totalPow2) in
  let sum := sum_samples adc pin (conversions m) N in
  readHighResAveraged adc OUTPUT_BITS AVG_POW2 pin m =
    Some (Z.shiftl (Z.shiftr sum totalPow2) extraBits, bump N m) /\
  (AVG_POW2 = 0 \/ OUTPUT_BITS = 10 \/ (exists s, forall k, adc pin k = s) ->
   spec_decimate_then_average adc OUTPUT_BITS AVG_POW2 pin m =
   readHighResAveraged adc OUTPUT_BITS AVG_POW2 pin m).
Proof.
  intros HB HA e t Ht N sum.
  assert (Ht' : 0 <= t <= 15) by (unfold t, e; lia).
  pose proof (pow2_lt_16 _ Ht') as Hp.
  assert (Hcomb : readHighResAveraged adc OUTPUT_BITS AVG_POW2 pin m =
                  Some (Z.shiftl (Z.shiftr sum t) e, bump N m))
    by (apply readHighResAveraged_ten_bit; assumption).
  split; [exact Hcomb |].
  intros [E | [E | [s Hs]]]; rewrite Hcomb; unfold spec_decimate_then_average.
  - (* a single decimation step *)
    subst AVG_POW2. change (Z.to_nat (2 ^ 0)) with 1%nat.
    cbn [spec_sum_decimated]. unfold bind.
    rewrite (readHighRes_ten_bit adc pin in_range OUTPUT_BITS m HB).
    unfold ret, sum, N, t. fold e. rewrite Z.add_0_r, Z.add_0_l, Z.shiftr_0_r.
    reflexivity.
  - (* groups of one conversion *)
    subst OUTPUT_BITS. unfold bind. rewrite spec_sum_decimated_10.
    unfold ret, sum, N, t, e. cbn [Z.sub Z.mul Z.add Z.opp Z.pos_sub].
    rewrite Z.add_0_l, Z.shiftl_0_r. reflexivity.
  - (* constant conversions *)
    assert (Hpa : 0 < 2 ^ AVG_POW2) by (apply Z.pow_pos_nonneg; lia).
    assert (Hpe : 0 < 2 ^ (2 * e)) by (apply Z.pow_pos_nonneg; unfold e; lia).
    unfold bind. rewrite (spec_sum_decimated_const s OUTPUT_BITS Hs HB).
    unfold ret, sum. rewrite (sum_samples_const adc pin s Hs). fold e.
    f_equal. f_equal.
    + rewrite Z.add_0_l, Z2Nat.id by lia.
      rewrite Z.shiftr_div_pow2, Z.mul_comm, Z.div_mul by lia.
      unfold N. rewrite Z2Nat.id, Z.shiftr_div_pow2, Z.mul_comm, Z.div_mul by lia.
      reflexivity.
    + f_equal. unfold N, t. apply Nat2Z.inj.
      rewrite Nat2Z.inj_mul, !Z2Nat.id by lia.
      rewrite Z.pow_add_r by (unfold e; lia). lia.
Qed.

End TwoStep.

Lemma combined_read_vs_two_step_witness :
  spec_decimate_then_average (steady 500) 12 2 0 (boot 135) =
  readHighResAveraged (steady 500) 12 2 0 (boot 135).
Proof.
  refine (proj2 (combined_read_vs_two_step (steady 500) 0
                   (steady_ten_bit 500 0 ltac:(lia)) 12 2 (boot 135) _ _ _) _).
  - lia.
  - lia.
  - cbn. lia.
  - right. right. exists 500. reflexivity.
Defined.

(** C3 as it is written fails at [OUTPUT_BITS = 11], [AVG_POW2 = 1] on the
    conversions 2, 2, 2, 1, 3, 2, 2, 2: the single pass returns
    [(16 >> 3) << 1 = 4], while the two groups decimate to
    [(7 >> 2) << 1 = 2] and [(9 >> 2) << 1 = 4], whose average is 3.
    Averaging the group averages 1 and 2 first and widening last gives 2. *)
Lemma two_step_rounding_counterexample :
  readHighResAveraged (feed [2; 2; 2; 1; 3; 2; 2; 2]) 11 1 0 (boot 135) =
    Some (4, bump 8 (boot 135)) /\
  spec_decimate_then_average (feed [2; 2; 2; 1; 3; 2; 2; 2]) 11 1 0 (boot 135) =
    Some (3, bump 8 (boot 135)) /\
  spec_decimate_then_average (feed [2; 2; 2; 1; 3; 2; 2; 2]) 11 1 0 (boot 135) <>
  readHighResAveraged (feed [2; 2; 2; 1; 3; 2; 2; 2]) 11 1 0 (boot 135) /\
  spec_average_then_widen (feed [2; 2; 2; 1; 3; 2; 2; 2]) 11 1 0 (boot 135) =
    Some (2, bump 8 (boot 135)).
Proof.
  split; [vm_compute; reflexivity |].
  split; [vm_compute; reflexivity |].
  split; [vm_compute; discriminate |].
  vm_compute. reflexivity.
Qed.

(** * Further properties of the class *)

(** ** The reads at their default template arguments *)

Lemma u16_u32 (z : Z) : u16 (u32 z) = u16 z.
Proof.
  unfold u16, u32. apply Z.mod_mod_divide.
  exists (2 ^ 16). reflexivity.
Qed.

Lemma u16_idemp (z : Z) : u16 (u16 z) = u16 z.
Proof. unfold u16. apply Z.mod_mod. lia. Qed.

Lemma read_run (adc : Z -> nat -> Z) (pin : Z) (m : Machine) :
  read adc pin m = Some (u16 (adc pin (conversions m)), bump 1 m).
Proof.
  unfold read, bind, analogRead, ret, bump. now rewrite Nat.add_1_r.
Qed.

(** X1. [readAveraged<0>], [readHighRes<10>] and [readHighResAveraged<10, 0>],
    the reads at their default template arguments, each do what [read]
    does, whatever value the conversion returns. *)
Theorem default_reads_are_read (adc : Z -> nat -> Z) (pin : Z) (m : Machine) :
  readAveraged adc 0 pin m = read adc pin m /\
  readHighRes adc 10 pin m = read adc pin m /\
  readHighResAveraged adc 10 0 pin m = read adc pin m.
Proof.
  rewrite read_run. repeat split.
  - rewrite readAveraged_run by lia.
    change (Z.to_nat (2 ^ 0)) with 1%nat.
    rewrite sum_samples_one, Z.shiftr_0_r, u16_u32. reflexivity.
  - rewrite readHighRes_run by lia.
    change (Z.to_nat (2 ^ (2 * (10 - 10)))) with 1%nat.
    change (2 * (10 - 10)) with 0. change (10 - 10) with 0.
    rewrite sum_samples_one, Z.shiftr_0_r, Z.shiftl_0_r, u16_u32, !u16_idemp.
    reflexivity.
  - rewrite readHighResAveraged_run by (try lia; cbn; lia).
    change (u8 (2 * (10 - 10) + 0)) with 0.
    change (Z.to_nat (2 ^ 0)) with 1%nat. change (10 - 10) with 0.
    rewrite sum_samples_one, Z.shiftr_0_r, Z.shiftl_0_r, u16_u32, !u16_idemp.
    reflexivity.
Qed.

(** X2. [readHighResAveraged<OUTPUT_BITS, 0>] is [readHighRes<OUTPUT_BITS>],
    for every [OUTPUT_BITS], those the [static_assert] rejects included,
    and whatever the conversions return. *)
Theorem combined_read_without_averaging
    (adc : Z -> nat -> Z) (OUTPUT_BITS pin : Z) (m : Machine) :
  readHighResAveraged adc OUTPUT_BITS 0 pin m = readHighRes adc OUTPUT_BITS pin m.
Proof.
  unfold readHighResAveraged, readHighRes, bind at 1 7.
  unfold static_assert_bits.
  destruct ((10 <=? OUTPUT_BITS) && (OUTPUT_BITS <=? 16)) eqn:E;
    [| reflexivity].
  apply andb_true_iff in E. destruct E as [E1 E2].
  apply Z.leb_le in E1, E2. unfold ret at 1 3.
  rewrite extraBits_small by lia.
  rewrite Z.add_0_r, (u8_small (2 * (OUTPUT_BITS - 10))) by lia.
  reflexivity.
Qed.

(** X3. [readHighResAveraged<10, AVG_POW2>] is [readAveraged<AVG_POW2>], for
    every [AVG_POW2] a [uint8_t] template argument can be, and whatever
    the conversions return. *)
Theorem combined_read_at_native_bits
    (adc : Z -> nat -> Z) (AVG_POW2 pin : Z) (m : Machine) :
  0 <= AVG_POW2 < 2 ^ 8 ->
  readHighResAveraged adc 10 AVG_POW2 pin m = readAveraged adc AVG_POW2 pin m.
Proof.
  intros HA. unfold readHighResAveraged, readAveraged.
  unfold bind at 1. unfold static_assert_bits. cbn [Z.leb Z.compare andb Pos.compare Pos.compare_cont].
  unfold ret at 1. change (u8 (10 - 10)) with 0.
  change (2 * 0 + AVG_POW2) with AVG_POW2. rewrite (u8_small AVG_POW2) by exact HA.
  unfold bind. destruct (lift (int_shl 1 AVG_POW2) m) as [[one m1] |]; [| reflexivity].
  destruct (accumulate adc (u16 one) pin m1) as [[sum m2] |]; [| reflexivity].
  destruct (lift (ulong_shr sum AVG_POW2) m2) as [[q m3] |]; [| reflexivity].
  unfold lift, uint_shl, ret. cbn [Z.leb Z.ltb Z.compare andb].
  rewrite Z.shiftl_0_r, !u16_idemp. reflexivity.
Qed.

Lemma combined_read_at_native_bits_witness :
  readHighResAveraged (feed [100; 102; 98; 100]) 10 2 0 (boot 135) =
  readAveraged (feed [100; 102; 98; 100]) 2 0 (boot 135).
Proof.
  apply (combined_read_at_native_bits (feed [100; 102; 98; 100]) 2 0 (boot 135)).
  cbn. lia.
Defined.

(** ** The prescaler argument *)

Lemma low3_mod8 (p : Z) : Z.land p 7 = p mod 8.
Proof. change 7 with (Z.ones 3). rewrite Z.land_ones by lia. reflexivity. Qed.

(** X4. Only the low three bits of the argument of [begin] count: [begin p]
    does what [begin (p mod 8)] does; and for [p] from 0 to 7 the
    prescaler field becomes [p] and the register ends in [p] modulo 8. *)
Theorem begin_uses_low_three_bits (p : Z) (m : Machine) :
  begin p m = begin (p mod 8) m /\
  (0 <= p <= 7 ->
   exists m', begin p m = Some (true, m') /\
              _prescalerBits (self m') = p /\ ADCSRA m' mod 8 = p).
Proof.
  split.
  - rewrite !begin_run, !low3_mod8, Z.mod_mod by lia. reflexivity.
  - intros Hp. eexists. split; [apply begin_run |].
    cbn [self ADCSRA _prescalerBits].
    rewrite <- (low3_mod8 (Z.lor _ _)), merged_low3, low3_mod8.
    split; apply Z.mod_small; lia.
Qed.

Lemma begin_uses_low_three_bits_witness :
  exists m', begin 4 (boot 167) = Some (true, m') /\
             _prescalerBits (self m') = 4 /\ ADCSRA m' mod 8 = 4.
Proof.
  apply (proj2 (begin_uses_low_three_bits 4 (boot 167))). lia.
Defined.

(** The bits of the merged byte above bit 2 are those of [v]. *)
Lemma merged_high5 (v p : Z) :
  Z.land (Z.lor (Z.land v 248) (Z.land p 7)) 248 = Z.land v 248.
Proof.
  apply Z.bits_inj'. intros i Hi.
  rewrite !Z.land_spec, merged_bits by exact Hi.
  destruct (Z.ltb_spec i 3) as [H3 | H3].
  - assert (H : i = 0 \/ i = 1 \/ i = 2) by lia.
    destruct H as [-> | [-> | ->]]; cbn; now rewrite !andb_false_r.
  - destruct (Z.ltb_spec i 8) as [H8 | H8]; [reflexivity |].
    rewrite (testbit_const_high 248 i) by (cbn; lia).
    now rewrite !andb_false_r.
Qed.

Lemma merged_twice (v p1 p2 : Z) :
  Z.lor (Z.land (Z.lor (Z.land v 248) (Z.land p1 7)) 248) (Z.land p2 7) =
  Z.lor (Z.land v 248) (Z.land p2 7).
Proof. now rewrite merged_high5. Qed.

(** X5. A second [begin] leaves in the register what it would have left had
    the first not been made: bits 3 to 7 of the original value and the
    low three bits of the second argument.  Only the backup differs. *)
Theorem begin_again_sets_prescaler (p1 p2 : Z) (m : Machine) :
  exists m1 m2 m2',
    begin p1 m = Some (true, m1) /\
    begin p2 m1 = Some (true, m2) /\
    begin p2 m = Some (true, m2') /\
    ADCSRA m2 = ADCSRA m2' /\
    _prescalerBits (self m2) = _prescalerBits (self m2') /\
    _initialized (self m2) = true.
Proof.
  do 3 eexists.
  split; [apply begin_run |]. split; [apply begin_run |].
  split; [apply begin_run |].
  cbn [ADCSRA self _prescalerBits _initialized].
  rewrite merged_twice. auto.
Qed.

(** ** Scoped use *)

(** X6. The pattern the class is made for: [begin], then any computation that
    only converts (any of the reads), then the destructor.  Whenever the
    computation returns, the whole returns its value, the register holds
    what it held before [begin], and the object is not initialized. *)
Theorem scoped_use_restores {A} (c : M A) (p : Z) (m m0 m1 : Machine) (v : A) :
  frames c ->
  begin p m = Some (true, m0) ->
  c m0 = Some (v, m1) ->
  exists m',
    (begin p ;; x <- c ;; destroy ;; ret x) m = Some (v, m') /\
    ADCSRA m' = ADCSRA m /\
    _initialized (self m') = false /\
    conversions m' = conversions m1.
Proof.
  intros Hf Hb Hc. destruct (Hf _ _ _ Hc) as [k Hk].
  unfold bind. rewrite Hb, Hc. unfold destroy. rewrite end_run.
  eexists. split; [reflexivity |].
  rewrite begin_run in Hb. inversion Hb; subst. cbn. auto.
Qed.

Lemma scoped_use_restores_witness :
  exists m',
    (begin 4 ;; x <- readAveraged (feed [100; 102; 98; 100]) 2 0 ;; destroy ;; ret x)
      (boot 167) = Some (100, m') /\
    ADCSRA m' = 167 /\ _initialized (self m') = false.
Proof.
  destruct (scoped_use_restores (readAveraged (feed [100; 102; 98; 100]) 2 0) 4
              (boot 167) (mkMachine 164 0 (mkReader 4 167 true))
              (mkMachine 164 4 (mkReader 4 167 true)) 100)
    as (m' & H & Hr & Hi & _).
  - apply frames_readAveraged.
  - vm_compute. reflexivity.
  - vm_compute. reflexivity.
  - exists m'. auto.
Defined.

(** ** Sequences of calls *)

Section Calls.

Variable adc : Z -> nat -> Z.

Lemma frames_drop {A} (c : M A) : frames c -> frames (c ;; ret tt).
Proof. intros H. apply frames_bind; [exact H | intro; apply frames_ret]. Qed.

(** What one call does to the machine. *)
Lemma do_call_cases (c : call) (m m' : Machine) :
  do_call adc c m = Some (tt, m') ->
  match c with
  | CBegin p =>
      m' = mkMachine (Z.lor (Z.land (ADCSRA m) 248) (Z.land p 7)) (conversions m)
             (mkReader (Z.land p 7) (ADCSRA m) true)
  | CEnd =>
      m' = mkMachine
             (if _initialized (self m) then _backupADCSRA (self m) else ADCSRA m)
             (conversions m)
             (mkReader (_prescalerBits (self m)) (_backupADCSRA (self m)) false)
  | _ => only_converts m m'
  end.
Proof.
  destruct c; cbn [do_call]; intros H.
  - unfold bind in H. rewrite begin_run in H. inversion H. reflexivity.
  - rewrite end_run in H. inversion H. reflexivity.
  - eapply (frames_drop _ (frames_read adc pin)), H.
  - eapply (frames_drop _ (frames_readAveraged adc AVG_POW2 pin)), H.
  - eapply (frames_drop _ (frames_readHighRes adc OUTPUT_BITS pin)), H.
  - eapply (frames_drop _ (frames_readHighResAveraged adc OUTPUT_BITS AVG_POW2 pin)), H.
Qed.

Lemma do_calls_cons (c : call) (cs : list call) (m m' : Machine) :
  do_calls adc (c :: cs) m = Some (tt, m') ->
  exists m1, do_call adc c m = Some (tt, m1) /\ do_calls adc cs m1 = Some (tt, m').
Proof.
  cbn [do_calls]. unfold bind.
  destruct (do_call adc c m) as [[[] m1] |]; [| discriminate].
  intros H. exists m1. auto.
Qed.

Lemma keeps_high_bits_step (V : Z) (c : call) (m m' : Machine) :
  keeps_high_bits V m -> do_call adc c m = Some (tt, m') -> keeps_high_bits V m'.
Proof.
  intros [Hr Hb] H. apply do_call_cases in H. unfold keeps_high_bits.
  destruct c;
    [ subst m'; cbn | subst m'; cbn
    | destruct H as [k ->]; unfold bump; cbn; split; assumption .. ].
  - rewrite merged_high5. auto.
  - split; [| discriminate].
    destruct (_initialized (self m)); auto.
Qed.

Lemma keeps_high_bits_run (V : Z) (cs : list call) :
  forall m m', keeps_high_bits V m -> do_calls adc cs m = Some (tt, m') ->
               keeps_high_bits V m'.
Proof.
  induction cs as [| c cs IH]; intros m m' Hi H.
  - inversion H; subst. exact Hi.
  - apply do_calls_cons in H. destruct H as (m1 & H1 & H2).
    eapply IH; [eapply keeps_high_bits_step; eassumption | exact H2].
Qed.

(** X7. No sequence of calls on an object that starts not initialized changes
    bits 3 to 7 of the register, the bits that are not the prescaler's. *)
Theorem calls_keep_high_bits (cs : list call) (m m' : Machine) :
  _initialized (self m) = false ->
  do_calls adc cs m = Some (tt, m') ->
  Z.land (ADCSRA m') 248 = Z.land (ADCSRA m) 248 /\
  (forall i, 3 <= i < 8 -> Z.testbit (ADCSRA m') i = Z.testbit (ADCSRA m) i).
Proof.
  intros Hoff H.
  assert (Hk : keeps_high_bits (ADCSRA m) m').
  { eapply keeps_high_bits_run; [| exact H].
    split; [reflexivity | rewrite Hoff; discriminate]. }
  destruct Hk as [Hk _]. split; [exact Hk |].
  intros i Hi.
  assert (Hb : Z.testbit (Z.land (ADCSRA m') 248) i =
               Z.testbit (Z.land (ADCSRA m) 248) i) by now rewrite Hk.
  rewrite !Z.land_spec in Hb.
  assert (E : Z.testbit 248 i = true).
  { assert (Hc : i = 3 \/ i = 4 \/ i = 5 \/ i = 6 \/ i = 7) by lia.
    destruct Hc as [-> | [-> | [-> | [-> | ->]]]]; reflexivity. }
  now rewrite E, !andb_true_r in Hb.
Qed.

Lemma holds_original_step (V : Z) (c : call) (m m' : Machine) :
  holds_original V m ->
  disciplined (_initialized (self m)) [c] = true ->
  do_call adc c m = Some (tt, m') ->
  holds_original V m'.
Proof.
  intros Hh Hd H. apply do_call_cases in H. unfold holds_original in *.
  destruct c;
    [ subst m'; cbn | subst m'; cbn
    | destruct H as [k ->]; unfold bump; cbn; exact Hh .. ].
  - cbn in Hd. destruct (_initialized (self m)); [discriminate | exact Hh].
  - destruct (_initialized (self m)); exact Hh.
Qed.

Lemma initialized_step (c : call) (m m' : Machine) :
  do_call adc c m = Some (tt, m') ->
  _initialized (self m') = last_active (_initialized (self m)) [c].
Proof.
  intros H. apply do_call_cases in H.
  destruct c;
    [ subst m'; reflexivity | subst m'; reflexivity
    | destruct H as [k ->]; reflexivity .. ].
Qed.

Lemma disciplined_cons (b : bool) (c : call) (cs : list call) :
  disciplined b (c :: cs) =
  disciplined b [c] && disciplined (last_active b [c]) cs.
Proof.
  destruct c; cbn; rewrite ?andb_true_r; try reflexivity.
Qed.

Lemma last_active_cons (b : bool) (c : call) (cs : list call) :
  last_active b (c :: cs) = last_active (last_active b [c]) cs.
Proof. destruct c; reflexivity. Qed.

(** X8. After any sequence of calls the object is initialized exactly when
    the last of its [begin] and [end] calls was a [begin]. *)
Theorem initialized_after_calls (cs : list call) :
  forall m m',
    do_calls adc cs m = Some (tt, m') ->
    initialized m' = Some (last_active (_initialized (self m)) cs, m').
Proof.
  unfold initialized, bind, get_self, ret.
  induction cs as [| c cs IH]; intros m m' H.
  - inversion H; subst. reflexivity.
  - apply do_calls_cons in H. destruct H as (m1 & H1 & H2).
    rewrite last_active_cons, <- (initialized_step c m m1 H1).
    apply IH, H2.
Qed.

Lemma holds_original_run (V : Z) (cs : list call) :
  forall m m',
    holds_original V m ->
    disciplined (_initialized (self m)) cs = true ->
    do_calls adc cs m = Some (tt, m') ->
    holds_original V m'.
Proof.
  induction cs as [| c cs IH]; intros m m' Hh Hd H.
  - inversion H; subst. exact Hh.
  - apply do_calls_cons in H. destruct H as (m1 & H1 & H2).
    rewrite disciplined_cons in Hd. apply andb_true_iff in Hd.
    destruct Hd as [Hd1 Hd2].
    rewrite <- (initialized_step c m m1 H1) in Hd2.
    eapply IH; [eapply holds_original_step; eassumption | exact Hd2 | exact H2].
Qed.

(** X9. When [begin] is only ever called on an object that is not
    initialized, then after any sequence of calls the register holds its
    original value whenever the object is not initialized, and the
    destructor puts that value back in any case. *)
Theorem disciplined_calls_restore (cs : list call) (m m' : Machine) :
  _initialized (self m) = false ->
  disciplined false cs = true ->
  do_calls adc cs m = Some (tt, m') ->
  (_initialized (self m') = false -> ADCSRA m' = ADCSRA m) /\
  exists m'', destroy m' = Some (tt, m'') /\
              ADCSRA m'' = ADCSRA m /\ _initialized (self m'') = false.
Proof.
  intros Hoff Hd H.
  assert (Hh : holds_original (ADCSRA m) m').
  { eapply holds_original_run; [| rewrite Hoff; exact Hd | exact H].
    unfold holds_original. rewrite Hoff. reflexivity. }
  unfold holds_original in Hh. split.
  - intros E. rewrite E in Hh. exact Hh.
  - unfold destroy. rewrite end_run. eexists. split; [reflexivity |].
    cbn. destruct (_initialized (self m')); auto.
Qed.

End Calls.

Lemma calls_keep_high_bits_witness :
  exists m',
    do_calls (steady 500) [CBegin 4; CRead 0; CBegin 2; CReadHighRes 12 0; CEnd]
      (boot 167) = Some (tt, m') /\
    Z.land (ADCSRA m') 248 = 160.
Proof.
  eexists. split; [vm_compute; reflexivity |].
  refine (proj1 (calls_keep_high_bits (steady 500)
                   [CBegin 4; CRead 0; CBegin 2; CReadHighRes 12 0; CEnd]
                   (boot 167) _ _ _)).
  - reflexivity.
  - vm_compute. reflexivity.
Defined.

Lemma initialized_after_calls_witness :
  initialized (mkMachine 164 2 (mkReader 4 167 true)) =
  Some (true, mkMachine 164 2 (mkReader 4 167 true)).
Proof.
  apply (initialized_after_calls (steady 500) [CEnd; CRead 0; CBegin 4; CRead 0]
           (boot 167)).
  vm_compute. reflexivity.
Defined.

Lemma disciplined_calls_restore_witness :
  exists m'',
    destroy (mkMachine 164 17 (mkReader 4 167 true)) = Some (tt, m'') /\
    ADCSRA m'' = 167 /\ _initialized (self m'') = false.
Proof.
  refine (proj2 (disciplined_calls_restore (steady 500)
                   [CBegin 2; CRead 0; CEnd; CBegin 4; CReadHighRes 12 0]
                   (boot 167) (mkMachine 164 17 (mkReader 4 167 true)) _ _ _)).
  - reflexivity.
  - reflexivity.
  - vm_compute. reflexivity.
Defined.

(** ** The loop and the accumulator, for any loop bound *)

Section Accumulator.

Variable adc : Z -> nat -> Z.
Variable pin : Z.

Lemma sum_samples_within (lo hi : Z) :
  within adc pin lo hi ->
  forall n c, Z.of_nat n * lo <= sum_samples adc pin c n <= Z.of_nat n * hi.
Proof.
  intros Hw. induction n as [| n IH]; intros c; cbn [sum_samples]; [lia |].
  specialize (IH (S c)). specialize (Hw c). lia.
Qed.

(** X10. For every bound a [uint16_t] can hold, zero included, the loop ends
    after exactly that many conversions.  When the conversions return
    non-negative [int] values (at most 32767), the accumulator holds their
    exact sum: [65535 * 32767] is below [2^32], so it cannot wrap. *)
Theorem accumulate_never_wraps (samples : Z) (m : Machine) :
  0 <= samples < 2 ^ 16 ->
  within adc pin 0 32767 ->
  accumulate adc samples pin m =
    Some (sum_samples adc pin (conversions m) (Z.to_nat samples),
          bump (Z.to_nat samples) m) /\
  0 <= sum_samples adc pin (conversions m) (Z.to_nat samples) < 2 ^ 32.
Proof.
  intros Hs Hw.
  pose proof (sum_samples_within 0 32767 Hw (Z.to_nat samples) (conversions m)) as Hb.
  assert (Hr : 0 <= sum_samples adc pin (conversions m) (Z.to_nat samples) < 2 ^ 32).
  { change (2 ^ 16) with 65536 in Hs. change (2 ^ 32) with 4294967296. nia. }
  split; [| exact Hr].
  rewrite accumulate_run by exact Hs. now rewrite u32_small.
Qed.

(** *** For which template arguments the reads have a value *)

(** X11. [readAveraged<AVG_POW2>] returns exactly for [AVG_POW2] from 0 to 15,
    [readHighRes<OUTPUT_BITS>] exactly for [OUTPUT_BITS] from 10 to 16, and
    [readHighResAveraged<OUTPUT_BITS, AVG_POW2>] exactly when moreover
    [totalPow2], as the [uint8_t] it is stored in, is at most 15. *)
Theorem reads_defined_iff (m : Machine) :
  (forall AVG_POW2,
     (exists v m', readAveraged adc AVG_POW2 pin m = Some (v, m')) <->
     0 <= AVG_POW2 <= 15) /\
  (forall OUTPUT_BITS,
     (exists v m', readHighRes adc OUTPUT_BITS pin m = Some (v, m')) <->
     10 <= OUTPUT_BITS <= 16) /\
  (forall OUTPUT_BITS AVG_POW2,
     (exists v m', readHighResAveraged adc OUTPUT_BITS AVG_POW2 pin m = Some (v, m')) <->
     10 <= OUTPUT_BITS <= 16 /\ u8 (2 * (OUTPUT_BITS - 10) + AVG_POW2) <= 15).
Proof.
  split; [| split].
  - intros A. split.
    + intros (v & m' & H). exact (readAveraged_defined adc pin A m v m' H).
    + intros H. do 2 eexists. now apply readAveraged_run.
  - intros B. split.
    + intros (v & m' & H). exact (readHighRes_defined adc pin B m v m' H).
    + intros H. do 2 eexists. now apply readHighRes_run.
  - intros B A. split.
    + intros (v & m' & H). exact (readHighResAveraged_defined adc pin B A m v m' H).
    + intros [HB Ht]. do 2 eexists. now apply readHighResAveraged_run.
Qed.

End Accumulator.

Lemma accumulate_never_wraps_witness :
  accumulate (steady 32767) 3 0 (boot 135) = Some (98301, bump 3 (boot 135)).
Proof.
  refine (proj1 (accumulate_never_wraps (steady 32767) 0 3 (boot 135) _ _)).
  - cbn. lia.
  - intros k. unfold steady. lia.
Defined.

(** ** Ranges of the averaged values *)

Section Ranges.

Variable adc : Z -> nat -> Z.
Variable pin : Z.
Variables lo hi : Z.
Hypothesis lo_nonneg : 0 <= lo.
Hypothesis hi_ten_bit : hi <= 1023.
Hypothesis in_band : within adc pin lo hi.

Lemma band_ten_bit : ten_bit adc pin.
Proof. intros k. specialize (in_band k). lia. Qed.

Lemma avg_within (n : Z) (c : nat) :
  0 <= n <= 15 ->
  lo <= Z.shiftr (sum_samples adc pin c (Z.to_nat (2 ^ n))) n <= hi.
Proof.
  intros Hn. pose proof (pow2_lt_16 _ Hn) as Hp.
  pose proof (sum_samples_within adc pin lo hi in_band (Z.to_nat (2 ^ n)) c) as Hb.
  rewrite Z2Nat.id in Hb by lia.
  rewrite Z.shiftr_div_pow2 by lia. split.
  - apply Z.div_le_lower_bound; lia.
  - apply Z.div_le_upper_bound; lia.
Qed.

Lemma widen_within (avg e : Z) :
  0 <= e -> lo <= avg <= hi -> lo * 2 ^ e <= Z.shiftl avg e <= hi * 2 ^ e.
Proof.
  intros He Ha. rewrite Z.shiftl_mul_pow2 by exact He.
  assert (0 < 2 ^ e) by (apply Z.pow_pos_nonneg; lia). nia.
Qed.

(** X12. When every conversion returns a value from [lo] to [hi] (within the
    10 bits), [readAveraged] returns a value from [lo] to [hi], and
    [readHighRes] and [readHighResAveraged] return one from
    [lo << extraBits] to [hi << extraBits]; for conversions that all
    return [s] that is [s], and [s << extraBits]. *)
Theorem reads_stay_within (m : Machine) :
  (forall AVG_POW2, 0 <= AVG_POW2 <= 15 ->
     exists v m', readAveraged adc AVG_POW2 pin m = Some (v, m') /\
                  lo <= v <= hi) /\
  (forall OUTPUT_BITS, 10 <= OUTPUT_BITS <= 16 ->
     exists v m', readHighRes adc OUTPUT_BITS pin m = Some (v, m') /\
                  lo * 2 ^ (OUTPUT_BITS - 10) <= v <= hi * 2 ^ (OUTPUT_BITS - 10)) /\
  (forall OUTPUT_BITS AVG_POW2,
     10 <= OUTPUT_BITS <= 16 -> 0 <= AVG_POW2 ->
     2 * (OUTPUT_BITS - 10) + AVG_POW2 <= 15 ->
     exists v m', readHighResAveraged adc OUTPUT_BITS AVG_POW2 pin m = Some (v, m') /\
                  lo * 2 ^ (OUTPUT_BITS - 10) <= v <= hi * 2 ^ (OUTPUT_BITS - 10)).
Proof.
  pose proof band_ten_bit as Hr. split; [| split].
  - intros A HA. do 2 eexists.
    split; [apply (readAveraged_ten_bit adc pin Hr A m HA) |].
    apply avg_within, HA.
  - intros B HB. do 2 eexists.
    split; [apply (readHighRes_ten_bit adc pin Hr B m HB) |].
    apply widen_within; [lia |]. apply avg_within. lia.
  - intros B A HB HA Ht. do 2 eexists.
    split; [apply (readHighResAveraged_ten_bit adc pin Hr B A m HB HA Ht) |].
    apply widen_within; [lia |]. apply avg_within. lia.
Qed.

End Ranges.

Lemma reads_stay_within_witness :
  exists v m',
    readHighResAveraged (fun _ k => 500 + Z.of_nat (k mod 4)) 11 1 0 (boot 135) =
      Some (v, m') /\
    500 * 2 ^ (11 - 10) <= v <= 503 * 2 ^ (11 - 10).
Proof.
  refine (proj2 (proj2
    (reads_stay_within (fun _ k => 500 + Z.of_nat (k mod 4)) 0 500 503
       _ _ _ (boot 135))) 11 1 _ _ _); try lia.
  intros k. pose proof (Nat.mod_upper_bound k 4 ltac:(lia)). cbv beta. lia.
Defined.

(** X13. With 10-bit conversions and [totalPow2] at most 15,
    [readHighResAveraged<OUTPUT_BITS, AVG_POW2>] returns a value below
    [2^OUTPUT_BITS] that is a multiple of [2^extraBits]. *)
Theorem combined_read_bounded
    (adc : Z -> nat -> Z) (OUTPUT_BITS AVG_POW2 pin : Z) (m : Machine) :
  ten_bit adc pin ->
  10 <= OUTPUT_BITS <= 16 -> 0 <= AVG_POW2 ->
  2 * (OUTPUT_BITS - 10) + AVG_POW2 <= 15 ->
  exists v m',
    readHighResAveraged adc OUTPUT_BITS AVG_POW2 pin m = Some (v, m') /\
    0 <= v < 2 ^ OUTPUT_BITS /\
    v mod 2 ^ (OUTPUT_BITS - 10) = 0.
Proof.
  intros Hr HB HA Ht. do 2 eexists.
  split; [apply (readHighResAveraged_ten_bit adc pin Hr _ _ m HB HA Ht) |].
  assert (Ht' : 0 <= 2 * (OUTPUT_BITS - 10) + AVG_POW2 <= 15) by lia.
  pose proof (avg_bounds adc pin Hr _ (conversions m) Ht') as Hb.
  split.
  - pose proof (widen_bounds _ (OUTPUT_BITS - 10) Hb ltac:(lia)) as Hw.
    replace (10 + (OUTPUT_BITS - 10)) with OUTPUT_BITS in Hw by lia. exact Hw.
  - rewrite Z.shiftl_mul_pow2 by lia. apply Z.mod_mul.
    apply Z.pow_nonzero; lia.
Qed.

Lemma combined_read_bounded_witness :
  exists v m',
    readHighResAveraged (steady 1023) 16 3 0 (boot 135) = Some (v, m') /\
    0 <= v < 2 ^ 16 /\ v mod 2 ^ (16 - 10) = 0.
Proof.
  apply (combined_read_bounded (steady 1023) 16 3 0 (boot 135)); try lia.
  apply steady_ten_bit. lia.
Defined.

Lemma reads_defined_iff_witness :
  exists v m', readHighResAveraged (steady 500) 16 244 0 (boot 135) = Some (v, m').
Proof.
  apply (proj2 (proj2 (reads_defined_iff (steady 500) 0 (boot 135))) 16 244).
  split; [lia | vm_compute; discriminate].
Defined.
